(** * watchdogd: a small userspace watchdog daemon

    A shallow embedding of [watchdogd.c].  The program is a sequence of
    top-level statements of [main] followed by an endless kick loop; a signal
    may arrive between any two statements.  The embedding is a small-step
    machine whose program counter names the statement about to run, together
    with the trace of observable actions (system calls, log lines, exits). *)

From Stdlib Require Import ZArith List String Ascii Bool Lia.
Import ListNotations.
Open Scope string_scope.
Open Scope list_scope.
Open Scope Z_scope.

(** ** C integers and the C library *)

Module CInt.

Definition INT_MAX : Z := 2147483647.
Definition INT_MIN : Z := -2147483648.
Definition LONG_MAX : Z := 9223372036854775807.
Definition LONG_MIN : Z := -9223372036854775808.

(** Conversion of a value to [unsigned int] (what happens to the [int]
    argument of [sleep], whose prototype takes [unsigned int]). *)
Definition to_unsigned (x : Z) : Z := x mod 2 ^ 32.

(** Conversion of a [long] to [int] (two's complement wrap-around). *)
Definition to_int (x : Z) : Z := (x + 2 ^ 31) mod 2 ^ 32 - 2 ^ 31.

Definition isspace (c : ascii) : bool :=
  let n := Z.of_nat (nat_of_ascii c) in
  (n =? 32) || ((9 <=? n) && (n <=? 13)).

Definition digit_of (c : ascii) : option Z :=
  let n := Z.of_nat (nat_of_ascii c) in
  if (48 <=? n) && (n <=? 57) then Some (n - 48) else None.

Fixpoint skip_space (s : string) : string :=
  match s with
  | String c r => if isspace c then skip_space r else s
  | EmptyString => s
  end.

Fixpoint digits (acc : Z) (s : string) : Z :=
  match s with
  | String c r =>
      match digit_of c with
      | Some d => digits (10 * acc + d) r
      | None => acc
      end
  | EmptyString => acc
  end.

Definition clamp_long (x : Z) : Z := Z.max LONG_MIN (Z.min LONG_MAX x).

(** [strtol(s, NULL, 10)]: leading white space, an optional sign, then the
    longest run of decimal digits; out-of-range values saturate. *)
Definition strtol (s : string) : Z :=
  match skip_space s with
  | String "-" r => clamp_long (- digits 0 r)
  | String "+" r => clamp_long (digits 0 r)
  | r => clamp_long (digits 0 r)
  end.

(** [atoi(s)] is [(int) strtol(s, NULL, 10)], as in glibc (the C standard
    leaves the result for out-of-range input open). *)
Definition atoi (s : string) : Z := to_int (strtol s).

End CInt.

(** ** Constants of the program (lines 33-35) *)

Definition WDT_DEVNODE : string := "/dev/watchdog".
Definition WDT_TIMEOUT_DEFAULT : Z := 20.
Definition WDT_KICK_DEFAULT : Z := Z.quot WDT_TIMEOUT_DEFAULT 2.

(** ** Observable actions *)

Inductive signo := SIGINT | SIGTERM | SIGHUP | SIGKILL.

Inductive priority := LOG_ERR | LOG_DEBUG.

(** One constructor per format string of the program. *)
Inductive message :=
| MKicking                         (* "Kicking watchdog." *)
| MSetting (count : Z)             (* "Setting watchdog timeout to %d sec." *)
| MSetFailed                       (* "Failed setting HW watchdog timeout" + errno *)
| MPrevious (arg : Z)              (* "Previous timeout was %d sec" *)
| MTimeoutIs (count : Z)           (* "Watchdog timeout is set to %d sec." *)
| MSafeExit                        (* "Safe exit, disabling HW watchdog." *)
| MMissingLogfile                  (* "Missing logfile argument." *)
| MDaemonMode                      (* "Starting in deamon mode." *)
| MOpenFailed                      (* "Failed opening watchdog device, %s" + errno *)
| MReadFailed                      (* "Failed reading current watchdog timeout" + errno *)
| MMargin (real_timeout period : Z) (* "Warning, watchdog timeout <= kick interval: %d <= %d" *)
| MInterval (period : Z).          (* "Watchdog kick interval set to %d sec." *)

Inductive stdout_text :=
| PUsage
| PVersion
| PUnrecognized (c : ascii).

Inductive request :=
| WDIOC_KEEPALIVE
| WDIOC_SETTIMEOUT (arg : Z)
| WDIOC_GETTIMEOUT.

Inductive event :=
| EvSyslog (prio : priority) (m : message)
| EvStderr (m : message)
| EvPrintf (t : stdout_text)
| EvSigaction (sig : signo)
| EvDaemonize (output : option string)
| EvOpen (path : string)
| EvIoctl (fd : Z) (req : request)
| EvWrite (fd : Z) (buf : string)
| EvClose (fd : Z)
| EvSleep (seconds : Z)
| EvExit (status : Z)
| EvKilled (sig : signo).

(** ** Command line, as [getopt_long] hands it to the [switch] *)

Inductive opt :=
| Opt_f
| Opt_l (optarg : option string)
| Opt_w (optarg : string)
| Opt_k (optarg : string)
| Opt_s
| Opt_v
| Opt_V
| Opt_h
| Opt_other (c : ascii).

(** ** The operating system's answers

    [daemonize] is declared (line 48) but defined elsewhere; only the value
    it returns matters to [main].  An [ioctl] answers with its return value
    and the integer it stored through the pointer argument. *)
Record world := mkWorld {
  w_daemonize : Z;
  w_open : Z;
  w_settimeout : Z * Z;
  w_gettimeout : Z * Z
}.

(** ** Program state *)

Inductive disposition := SIG_DFL | Handler_wdt_magic_close.

Inductive pc :=
| PcGetopt (rest : list opt)   (* lines 147-188, options still to come *)
| PcDaemon                     (* lines 190-203 *)
| PcOpen                       (* line 205 *)
| PcOpenCheck                  (* lines 206-209 *)
| PcSetTimeout                 (* line 211 *)
| PcGetTimeout                 (* line 213 *)
| PcMargin                     (* lines 214-221 *)
| PcPeriod                     (* lines 224-229 *)
| PcReport                     (* line 230 *)
| PcKick                       (* line 233 *)
| PcSleep                      (* line 234 *)
| PcExited (status : Z)
| PcKilled (sig : signo).

Record state := mkState {
  (* globals, lines 43-45 *)
  fd : Z;
  verbose : Z;
  sys_log : Z;
  (* signal table of the process *)
  on_sigint : disposition;
  on_sigterm : disposition;
  (* locals of main, lines 129-134 *)
  timeout : Z;
  real_timeout : Z;
  period : Z;
  background : Z;
  logfile : option string;
  (* control *)
  at_pc : pc
}.

Definition set_pc (p : pc) (s : state) : state :=
  mkState (fd s) (verbose s) (sys_log s) (on_sigint s) (on_sigterm s)
          (timeout s) (real_timeout s) (period s) (background s) (logfile s) p.
Definition set_fd (v : Z) (s : state) : state :=
  mkState v (verbose s) (sys_log s) (on_sigint s) (on_sigterm s)
          (timeout s) (real_timeout s) (period s) (background s) (logfile s) (at_pc s).
Definition set_verbose (v : Z) (s : state) : state :=
  mkState (fd s) v (sys_log s) (on_sigint s) (on_sigterm s)
          (timeout s) (real_timeout s) (period s) (background s) (logfile s) (at_pc s).
Definition set_sys_log (v : Z) (s : state) : state :=
  mkState (fd s) (verbose s) v (on_sigint s) (on_sigterm s)
          (timeout s) (real_timeout s) (period s) (background s) (logfile s) (at_pc s).
Definition set_handlers (d : disposition) (s : state) : state :=
  mkState (fd s) (verbose s) (sys_log s) d d
          (timeout s) (real_timeout s) (period s) (background s) (logfile s) (at_pc s).
Definition set_timeout (v : Z) (s : state) : state :=
  mkState (fd s) (verbose s) (sys_log s) (on_sigint s) (on_sigterm s)
          v (real_timeout s) (period s) (background s) (logfile s) (at_pc s).
Definition set_real_timeout (v : Z) (s : state) : state :=
  mkState (fd s) (verbose s) (sys_log s) (on_sigint s) (on_sigterm s)
          (timeout s) v (period s) (background s) (logfile s) (at_pc s).
Definition set_period (v : Z) (s : state) : state :=
  mkState (fd s) (verbose s) (sys_log s) (on_sigint s) (on_sigterm s)
          (timeout s) (real_timeout s) v (background s) (logfile s) (at_pc s).
Definition set_background (v : Z) (s : state) : state :=
  mkState (fd s) (verbose s) (sys_log s) (on_sigint s) (on_sigterm s)
          (timeout s) (real_timeout s) (period s) v (logfile s) (at_pc s).
Definition set_logfile (v : option string) (s : state) : state :=
  mkState (fd s) (verbose s) (sys_log s) (on_sigint s) (on_sigterm s)
          (timeout s) (real_timeout s) (period s) (background s) v (at_pc s).

(** State on entry to [main]: initialisers of lines 43-45 and 129-134. *)
Definition init (argv : list opt) : state :=
  mkState (-1) 0 0 SIG_DFL SIG_DFL WDT_TIMEOUT_DEFAULT 0 (-1) 1 None (PcGetopt argv).

(** ** Logging macros (lines 38-41) *)

Definition print (s : state) (prio : priority) (m : message) : list event :=
  if sys_log s =? 0 then [EvStderr m] else [EvSyslog prio m].
Definition ERROR (s : state) (m : message) : list event := print s LOG_ERR m.
Definition PERROR (s : state) (m : message) : list event := print s LOG_ERR m.
Definition DEBUG (s : state) (m : message) : list event :=
  if verbose s =? 0 then [] else print s LOG_DEBUG m.

(** ** Device operations (lines 56-96) *)

Definition wdt_kick (s : state) : list event :=
  DEBUG s MKicking ++ [EvIoctl (fd s) WDIOC_KEEPALIVE].

Definition wdt_set_timeout (w : world) (s : state) (count : Z) : list event :=
  let arg := count in
  DEBUG s (MSetting count) ++ [EvIoctl (fd s) (WDIOC_SETTIMEOUT arg)] ++
  (if fst (w_settimeout w) =? 0
   then DEBUG s (MPrevious (snd (w_settimeout w)))
   else PERROR s MSetFailed).

Definition wdt_get_timeout (w : world) (s : state) : Z * list event :=
  let err := fst (w_gettimeout w) in
  let count := if err =? 0 then snd (w_gettimeout w) else err in
  (count, [EvIoctl (fd s) WDIOC_GETTIMEOUT] ++ DEBUG s (MTimeoutIs count)).

Definition wdt_magic_close (signo_ : signo) (s : state) : state * list event :=
  (set_pc (PcExited 0) s,
   (if fd s =? -1 then []
    else DEBUG s MSafeExit ++ [EvWrite (fd s) "V"; EvClose (fd s)])
   ++ [EvExit 0]).

Definition setup_magic_close (s : state) : state * list event :=
  (set_handlers Handler_wdt_magic_close s, [EvSigaction SIGINT; EvSigaction SIGTERM]).

Definition usage (status : Z) : Z * list event := (status, [EvPrintf PUsage]).

(** ** [main], one statement at a time *)

Definition leave (status : Z) (s : state) (evs : list event) : state * list event :=
  (set_pc (PcExited status) s, evs ++ [EvExit status]).

(** One round of the option loop, lines 147-188. *)
Definition getopt_step (s : state) (rest : list opt) : state * list event :=
  match rest with
  | [] => (set_pc PcDaemon s, [])
  | o :: rest' =>
      let s := set_pc (PcGetopt rest') s in
      match o with
      | Opt_f => (set_background 0 s, [])
      | Opt_l None =>
          let u := usage 1 in
          leave (fst u) s (ERROR s MMissingLogfile ++ snd u)
      | Opt_l (Some a) => (set_logfile (Some a) s, [])
      | Opt_w a => (set_timeout (CInt.atoi a) s, [])
      | Opt_k a => (set_period (CInt.atoi a) s, [])
      | Opt_s => setup_magic_close s
      | Opt_v => leave 0 s [EvPrintf PVersion]
      | Opt_V => (set_verbose 1 s, [])
      | Opt_h => let u := usage 0 in leave (fst u) s (snd u)
      | Opt_other c =>
          let u := usage 1 in
          leave (fst u) s (EvPrintf (PUnrecognized c) :: snd u)
      end
  end.

(** Lines 190-203. *)
Definition daemon_step (w : world) (s : state) : state * list event :=
  if background s =? 0 then (set_pc PcOpen s, [])
  else
    let s := match logfile s with None => set_sys_log 1 s | Some _ => s end in
    let pid := w_daemonize w in
    let evs := [EvDaemonize (logfile s)] in
    if pid =? 0 then (set_pc PcOpen s, evs ++ DEBUG s MDaemonMode)
    else leave (if pid <? 0 then 1 else 0) s evs.

(** Lines 214-221. *)
Definition margin_step (s : state) : state * list event :=
  (set_pc PcPeriod s,
   if real_timeout s <? 0 then PERROR s MReadFailed
   else if real_timeout s <=? period s
        then ERROR s (MMargin (real_timeout s) (period s))
        else []).

(** Lines 224-229. *)
Definition period_step (s : state) : state * list event :=
  (set_pc PcReport
     (if -1 =? period s
      then if real_timeout s <? 0
           then set_period WDT_KICK_DEFAULT s
           else set_period (Z.quot (real_timeout s) 2) s
      else s),
   []).

Definition step (w : world) (s : state) : state * list event :=
  match at_pc s with
  | PcGetopt rest => getopt_step s rest
  | PcDaemon => daemon_step w s
  | PcOpen => (set_pc PcOpenCheck (set_fd (w_open w) s), [EvOpen WDT_DEVNODE])
  | PcOpenCheck =>
      if fd s =? -1 then leave 1 s (PERROR s MOpenFailed)
      else (set_pc PcSetTimeout s, [])
  | PcSetTimeout => (set_pc PcGetTimeout s, wdt_set_timeout w s (timeout s))
  | PcGetTimeout =>
      let r := wdt_get_timeout w s in
      (set_pc PcMargin (set_real_timeout (fst r) s), snd r)
  | PcMargin => margin_step s
  | PcPeriod => period_step s
  | PcReport => (set_pc PcKick s, DEBUG s (MInterval (period s)))
  | PcKick => (set_pc PcSleep s, wdt_kick s)
  | PcSleep => (set_pc PcKick s, [EvSleep (CInt.to_unsigned (period s))])
  | PcExited _ | PcKilled _ => (s, [])
  end.

(** ** Signals *)

Definition alive (s : state) : bool :=
  match at_pc s with
  | PcExited _ | PcKilled _ => false
  | _ => true
  end.

Definition handler_of (s : state) (sig : signo) : disposition :=
  match sig with
  | SIGINT => on_sigint s
  | SIGTERM => on_sigterm s
  | SIGHUP | SIGKILL => SIG_DFL
  end.

(** Delivery of a signal to the process: the installed handler runs, or the
    default disposition (termination, for all four signals) applies. *)
Definition deliver (sig : signo) (s : state) : state * list event :=
  if alive s then
    match handler_of s sig with
    | Handler_wdt_magic_close => wdt_magic_close sig s
    | SIG_DFL => (set_pc (PcKilled sig) s, [EvKilled sig])
    end
  else (s, []).

(** ** Executions *)

Inductive tick :=
| Run                 (* the program executes its next statement *)
| Sig (sig : signo).  (* a signal arrives *)

Definition do_tick (w : world) (t : tick) (s : state) : state * list event :=
  match t with
  | Run => step w s
  | Sig sig => deliver sig s
  end.

Fixpoint exec (w : world) (sched : list tick) (s : state) : state * list event :=
  match sched with
  | [] => (s, [])
  | t :: sched' =>
      let r1 := do_tick w t s in
      let r2 := exec w sched' (fst r1) in
      (fst r2, snd r1 ++ snd r2)
  end.

(** Undisturbed execution of [n] statements. *)
Definition run (w : world) (n : nat) (s : state) : state * list event :=
  exec w (repeat Run n) s.

(** [main] from its first statement up to the first [wdt_kick] (or to its
    exit): every option takes one round of the loop, one more round sees
    [EOF], and eight statements follow. *)
Definition main_run (w : world) (argv : list opt) : state * list event :=
  run w (List.length argv + 9) (init argv).

(** ** Notions used to state the properties *)

(** Value returned by [wdt_get_timeout] (lines 80-85): the driver's answer,
    or the non-zero [ioctl] result when the request failed. *)
Definition read_back (w : world) : Z :=
  let err := fst (w_gettimeout w) in
  if err =? 0 then snd (w_gettimeout w) else err.

(** Value of [period] after lines 224-229, from its value before them and
    from [real_timeout]. *)
Definition kick_interval (period real_timeout : Z) : Z :=
  if -1 =? period
  then if real_timeout <? 0 then WDT_KICK_DEFAULT else Z.quot real_timeout 2
  else period.

(** Value of [period] once the option loop has gone through [rest],
    starting from [cur]. *)
Fixpoint period_after (rest : list opt) (cur : Z) : Z :=
  match rest with
  | [] => cur
  | Opt_k a :: rest' => period_after rest' (CInt.atoi a)
  | _ :: rest' => period_after rest' cur
  end.

(** The interval the operator asked for: the argument of the last [-k] of
    the command line, if there is one. *)
Fixpoint explicit_interval (argv : list opt) : option Z :=
  match argv with
  | [] => None
  | Opt_k a :: rest =>
      match explicit_interval rest with
      | Some k => Some k
      | None => Some (CInt.atoi a)
      end
  | _ :: rest => explicit_interval rest
  end.

Definition is_margin (e : event) : bool :=
  match e with
  | EvSyslog _ (MMargin _ _) | EvStderr (MMargin _ _) => true
  | _ => false
  end.

Definition count_margin (tr : list event) : nat :=
  List.length (filter is_margin tr).

Definition is_set_failed (e : event) : bool :=
  match e with
  | EvSyslog _ MSetFailed | EvStderr MSetFailed => true
  | _ => false
  end.

(** Neither a device request nor a wait. *)
Definition quiet (e : event) : bool :=
  match e with
  | EvIoctl _ _ | EvSleep _ => false
  | _ => true
  end.

Definition is_kick (e : event) : bool :=
  match e with
  | EvIoctl _ WDIOC_KEEPALIVE => true
  | _ => false
  end.

(** Part of the graceful stop: the magic write or the close. *)
Definition is_disable (e : event) : bool :=
  match e with
  | EvWrite _ _ | EvClose _ => true
  | _ => false
  end.

Definition is_exit (e : event) : bool :=
  match e with
  | EvExit _ | EvKilled _ => true
  | _ => false
  end.

Definition sleeps_for (I : Z) (e : event) : bool :=
  match e with
  | EvSleep n => n =? CInt.to_unsigned I
  | _ => true
  end.

Definition in_loop (s : state) : bool :=
  match at_pc s with
  | PcKick | PcSleep => true
  | _ => false
  end.

Definition armed (s : state) (sig : signo) : bool :=
  match handler_of s sig with
  | Handler_wdt_magic_close => true
  | SIG_DFL => false
  end.

(** Virtual clock: a kick takes no time, [sleep(n)] takes [n] seconds.
    [kick_times now tr] lists the instants of the kicks of [tr], the clock
    reading [now] when [tr] starts. *)
Fixpoint kick_times (now : Z) (tr : list event) : list Z :=
  match tr with
  | [] => []
  | EvSleep n :: tr' => kick_times (now + n) tr'
  | e :: tr' =>
      if is_kick e then now :: kick_times now tr' else kick_times now tr'
  end.

(** Differences between consecutive elements. *)
Fixpoint gaps (l : list Z) : list Z :=
  match l with
  | a :: (b :: _) as l' => (b - a) :: gaps l'
  | _ => []
  end.

(** The trace of [n] rounds of the loop of lines 232-235. *)
Fixpoint loop_trace (s : state) (n : nat) : list event :=
  match n with
  | O => []
  | S n' => wdt_kick s ++ [EvSleep (CInt.to_unsigned (period s))] ++ loop_trace s n'
  end.

(** Options after which the option loop goes on. *)
Definition goes_on (o : opt) : bool :=
  match o with
  | Opt_l None | Opt_v | Opt_h | Opt_other _ => false
  | _ => true
  end.

(** ** The command line, summarised

    What the option loop of lines 147-188 leaves in each variable after
    going through [rest], the variable holding [cur] before. *)

Fixpoint timeout_after (rest : list opt) (cur : Z) : Z :=
  match rest with
  | [] => cur
  | Opt_w a :: rest' => timeout_after rest' (CInt.atoi a)
  | _ :: rest' => timeout_after rest' cur
  end.

Fixpoint logfile_after (rest : list opt) (cur : option string) : option string :=
  match rest with
  | [] => cur
  | Opt_l (Some a) :: rest' => logfile_after rest' (Some a)
  | _ :: rest' => logfile_after rest' cur
  end.

Fixpoint background_after (rest : list opt) (cur : Z) : Z :=
  match rest with
  | [] => cur
  | Opt_f :: rest' => background_after rest' 0
  | _ :: rest' => background_after rest' cur
  end.

Fixpoint verbose_after (rest : list opt) (cur : Z) : Z :=
  match rest with
  | [] => cur
  | Opt_V :: rest' => verbose_after rest' 1
  | _ :: rest' => verbose_after rest' cur
  end.

Fixpoint handlers_after (rest : list opt) (cur : disposition) : disposition :=
  match rest with
  | [] => cur
  | Opt_s :: rest' => handlers_after rest' Handler_wdt_magic_close
  | _ :: rest' => handlers_after rest' cur
  end.

(** The [sigaction] calls made while going through [rest]. *)
Fixpoint sigactions (rest : list opt) : list event :=
  match rest with
  | [] => []
  | Opt_s :: rest' => EvSigaction SIGINT :: EvSigaction SIGTERM :: sigactions rest'
  | _ :: rest' => sigactions rest'
  end.

Definition parsed (argv : list opt) (s : state) : state :=
  mkState (fd s) (verbose_after argv (verbose s)) (sys_log s)
          (handlers_after argv (on_sigint s)) (handlers_after argv (on_sigterm s))
          (timeout_after argv (timeout s)) (real_timeout s)
          (period_after argv (period s)) (background_after argv (background s))
          (logfile_after argv (logfile s)) (at_pc s).

(** Exit status and output of the options that end the program. *)
Definition exit_status (o : opt) : Z :=
  match o with
  | Opt_v | Opt_h => 0
  | _ => 1
  end.

Definition exit_output (o : opt) : list event :=
  match o with
  | Opt_l None => [EvStderr MMissingLogfile; EvPrintf PUsage; EvExit 1]
  | Opt_v => [EvPrintf PVersion; EvExit 0]
  | Opt_h => [EvPrintf PUsage; EvExit 0]
  | Opt_other c => [EvPrintf (PUnrecognized c); EvPrintf PUsage; EvExit 1]
  | _ => []
  end.

(** [main] up to the end of its option loop. *)
Definition after_options (w : world) (argv : list opt) : state * list event :=
  run w (List.length argv + 1) (init argv).

(** ** Invariants *)

(** Number of margin warnings lines 214-221 print, [K] being the value of
    [period] when the option loop is left. *)
Definition warned (w : world) (K : Z) : nat :=
  if read_back w <? 0 then 0%nat
  else if read_back w <=? K then 1%nat else 0%nat.

(** What holds of the state and of the trace so far at each statement of
    [main]. *)
Definition main_inv (w : world) (K : Z) (s : state) (tr : list event) : Prop :=
  forallb (sleeps_for (kick_interval K (read_back w))) tr = true /\
  (w_open w = -1 -> forallb quiet tr = true) /\
  match at_pc s with
  | PcGetopt rest =>
      period_after rest (period s) = K /\ fd s = -1 /\
      forallb quiet tr = true /\ count_margin tr = 0%nat
  | PcDaemon | PcOpen =>
      period s = K /\ fd s = -1 /\
      forallb quiet tr = true /\ count_margin tr = 0%nat
  | PcOpenCheck =>
      period s = K /\ fd s = w_open w /\
      forallb quiet tr = true /\ count_margin tr = 0%nat
  | PcSetTimeout | PcGetTimeout =>
      period s = K /\ fd s = w_open w /\ w_open w <> -1 /\
      count_margin tr = 0%nat
  | PcMargin =>
      period s = K /\ fd s = w_open w /\ w_open w <> -1 /\
      real_timeout s = read_back w /\ count_margin tr = 0%nat
  | PcPeriod =>
      period s = K /\ fd s = w_open w /\ w_open w <> -1 /\
      real_timeout s = read_back w /\ count_margin tr = warned w K
  | PcReport | PcKick | PcSleep =>
      period s = kick_interval K (read_back w) /\ fd s = w_open w /\
      w_open w <> -1 /\ count_margin tr = warned w K
  | PcExited _ | PcKilled _ => True
  end.



Arguments kick_interval : simpl never.
Arguments period_step : simpl never.
Arguments read_back : simpl never.

(** ** Sample inputs *)

Definition world_20 : world := mkWorld 0 3 (0, 20) (0, 20).
Definition world_21 : world := mkWorld 0 3 (0, 21) (0, 21).
Definition world_unknown : world := mkWorld 0 3 (0, 20) (-1, 0).

Definition world_set_fails : world := mkWorld 0 3 (-1, 0) (0, 60).

Definition at_set_timeout : state :=
  mkState 3 0 0 SIG_DFL SIG_DFL 20 0 (-1) 0 None PcSetTimeout.

Definition world_no_device : world := mkWorld 0 (-1) (0, 20) (0, 20).


Definition loop_minus_5 : state := fst (main_run world_20 [Opt_f; Opt_k "-5"]).

Definition loop_10 : state := fst (main_run world_20 [Opt_f]).

Definition loop_verbose : state := fst (main_run world_20 [Opt_f; Opt_s; Opt_V]).

(** ** Notions used by the further properties *)

Definition world_parent : world := mkWorld 4711 3 (0, 20) (0, 20).
Definition world_fork_fails : world := mkWorld (-1) 3 (0, 20) (0, 20).

Definition no_exit (tr : list event) : bool :=
  forallb (fun e => negb (is_exit e)) tr.

(** While the process lives its trace has no exit; afterwards the exit is
    the last event, the only one, and agrees with the final state. *)
Definition exit_inv (s : state) (tr : list event) : Prop :=
  match at_pc s with
  | PcExited st =>
      (st = 0 \/ st = 1) /\
      exists pre, tr = pre ++ [EvExit st] /\ no_exit pre = true
  | PcKilled sg => exists pre, tr = pre ++ [EvKilled sg] /\ no_exit pre = true
  | _ => no_exit tr = true
  end.

Definition frozen (s0 s : state) (tr : list event) : Prop :=
  set_pc (at_pc s0) s = s0 /\ (alive s = true -> in_loop s = true).

(** The messages printed through the [DEBUG] macro. *)
Definition is_debug_message (m : message) : bool :=
  match m with
  | MKicking | MSetting _ | MPrevious _ | MTimeoutIs _ | MSafeExit
  | MDaemonMode | MInterval _ => true
  | _ => false
  end.

Definition is_debug (e : event) : bool :=
  match e with
  | EvSyslog _ m | EvStderr m => is_debug_message m
  | _ => false
  end.

(** A syslog line has priority [LOG_DEBUG] exactly when it is a debug
    message. *)
Definition priority_fits (e : event) : bool :=
  match e with
  | EvSyslog LOG_DEBUG m => is_debug_message m
  | EvSyslog LOG_ERR m => negb (is_debug_message m)
  | _ => true
  end.

Definition silent_inv (s : state) (tr : list event) : Prop :=
  verbose s = 0 /\ existsb is_debug tr = false /\
  match at_pc s with
  | PcGetopt rest => verbose_after rest 0 = 0
  | _ => True
  end.

Definition is_lifecycle (e : event) : bool :=
  match e with
  | EvDaemonize _ | EvOpen _ => true
  | _ => false
  end.

(** The calls to [daemonize] and [open] of a trace, in order. *)
Definition lifecycle (tr : list event) : list event := filter is_lifecycle tr.

(** What a complete start-up does, [B] being the final value of
    [background] and [L] that of [logfile]. *)
Definition expected_lifecycle (B : Z) (L : option string) : list event :=
  if B =? 0 then [EvOpen WDT_DEVNODE] else [EvDaemonize L; EvOpen WDT_DEVNODE].

Definition life_inv (B : Z) (L : option string) (s : state) (tr : list event) : Prop :=
  match at_pc s with
  | PcGetopt rest =>
      background_after rest (background s) = B /\
      logfile_after rest (logfile s) = L /\ lifecycle tr = []
  | PcDaemon => background s = B /\ logfile s = L /\ lifecycle tr = []
  | PcOpen => lifecycle tr = if B =? 0 then [] else [EvDaemonize L]
  | PcExited _ | PcKilled _ =>
      exists rest, lifecycle tr ++ rest = expected_lifecycle B L
  | _ => lifecycle tr = expected_lifecycle B L
  end.

Definition is_syslog (e : event) : bool :=
  match e with
  | EvSyslog _ _ => true
  | _ => false
  end.

Definition is_stderr (e : event) : bool :=
  match e with
  | EvStderr _ => true
  | _ => false
  end.

Definition no_syslog (tr : list event) : bool :=
  forallb (fun e => negb (is_syslog e)) tr.

Definition no_stderr (tr : list event) : bool :=
  forallb (fun e => negb (is_stderr e)) tr.

Definition is_daemonize_null (e : event) : bool :=
  match e with
  | EvDaemonize None => true
  | _ => false
  end.

Definition no_daemonize_null (tr : list event) : bool :=
  forallb (fun e => negb (is_daemonize_null e)) tr.

(** Either [sys_log] is clear and the trace has neither a syslog line nor
    a [daemonize(NULL)]; or it is set and the trace splits at its first
    [daemonize(NULL)] into a part without syslog lines and a part without
    standard-error lines. *)
Definition sink_inv (s : state) (tr : list event) : Prop :=
  (sys_log s = 0 /\ no_syslog tr = true /\ no_daemonize_null tr = true) \/
  (sys_log s <> 0 /\
   exists pre post, tr = pre ++ EvDaemonize None :: post /\
                    no_syslog pre = true /\ no_daemonize_null pre = true /\
                    no_stderr post = true).

(** The [ioctl] requests of a trace, in order, each with its
    descriptor. *)
Fixpoint requests (tr : list event) : list (Z * request) :=
  match tr with
  | [] => []
  | EvIoctl f r :: tr' => (f, r) :: requests tr'
  | _ :: tr' => requests tr'
  end.

Definition is_keepalive_on (d : Z) (x : Z * request) : bool :=
  match x with
  | (f, WDIOC_KEEPALIVE) => f =? d
  | _ => false
  end.

(** Nothing; or one set-timeout of [W]; or that, one get-timeout, and
    then keep-alives only; all on descriptor [d]. *)
Definition protocol (d W : Z) (l : list (Z * request)) : bool :=
  match l with
  | [] => true
  | (f, WDIOC_SETTIMEOUT a) :: l' =>
      (f =? d) && (a =? W) &&
      match l' with
      | [] => true
      | (f', WDIOC_GETTIMEOUT) :: l'' =>
          (f' =? d) && forallb (is_keepalive_on d) l''
      | _ => false
      end
  | _ => false
  end.

(** A write or a close is on descriptor [d]. *)
Definition on_device (d : Z) (e : event) : bool :=
  match e with
  | EvWrite f _ | EvClose f => f =? d
  | _ => true
  end.

Definition proto_inv (w : world) (W : Z) (s : state) (tr : list event) : Prop :=
  forallb (on_device (w_open w)) tr = true /\
  (existsb is_disable tr = true -> w_open w <> -1) /\
  match at_pc s with
  | PcGetopt rest =>
      timeout_after rest (timeout s) = W /\ fd s = -1 /\ requests tr = []
  | PcDaemon | PcOpen => timeout s = W /\ fd s = -1 /\ requests tr = []
  | PcOpenCheck => timeout s = W /\ fd s = w_open w /\ requests tr = []
  | PcSetTimeout =>
      timeout s = W /\ fd s = w_open w /\ w_open w <> -1 /\ requests tr = []
  | PcGetTimeout =>
      fd s = w_open w /\ w_open w <> -1 /\
      requests tr = [(w_open w, WDIOC_SETTIMEOUT W)]
  | PcMargin | PcPeriod | PcReport =>
      fd s = w_open w /\ w_open w <> -1 /\
      requests tr = [(w_open w, WDIOC_SETTIMEOUT W); (w_open w, WDIOC_GETTIMEOUT)]
  | PcKick | PcSleep =>
      fd s = w_open w /\ w_open w <> -1 /\
      exists n, requests tr =
                (w_open w, WDIOC_SETTIMEOUT W) :: (w_open w, WDIOC_GETTIMEOUT) ::
                repeat (w_open w, WDIOC_KEEPALIVE) n
  | PcExited _ | PcKilled _ =>
      protocol (w_open w) W (requests tr) = true /\
      (requests tr <> [] -> w_open w <> -1)
  end.

Definition is_read_failed (e : event) : bool :=
  match e with
  | EvSyslog _ MReadFailed | EvStderr MReadFailed => true
  | _ => false
  end.

Definition count_set_failed (tr : list event) : nat :=
  List.length (filter is_set_failed tr).

Definition count_read_failed (tr : list event) : nat :=
  List.length (filter is_read_failed tr).

Definition diag_inv (w : world) (s : state) (tr : list event) : Prop :=
  match at_pc s with
  | PcGetopt _ | PcDaemon | PcOpen | PcOpenCheck | PcSetTimeout =>
      count_set_failed tr = 0%nat /\ count_read_failed tr = 0%nat
  | PcGetTimeout =>
      count_set_failed tr = (if fst (w_settimeout w) =? 0 then 0%nat else 1%nat) /\
      count_read_failed tr = 0%nat
  | PcMargin =>
      count_set_failed tr = (if fst (w_settimeout w) =? 0 then 0%nat else 1%nat) /\
      count_read_failed tr = 0%nat /\ real_timeout s = read_back w
  | PcPeriod | PcReport | PcKick | PcSleep =>
      count_set_failed tr = (if fst (w_settimeout w) =? 0 then 0%nat else 1%nat) /\
      count_read_failed tr = (if read_back w <? 0 then 1%nat else 0%nat)
  | PcExited _ | PcKilled _ => True
  end.

Definition same_kind (a b : opt) : bool :=
  match a, b with
  | Opt_f, Opt_f | Opt_l _, Opt_l _ | Opt_w _, Opt_w _ | Opt_k _, Opt_k _
  | Opt_s, Opt_s | Opt_v, Opt_v | Opt_V, Opt_V | Opt_h, Opt_h
  | Opt_other _, Opt_other _ => true
  | _, _ => false
  end.

(** * Properties *)

Ltac split_ifs :=
  repeat match goal with
         | |- context [if ?b then _ else _] => destruct b eqn:?
         | |- context [match ?x with None => _ | Some _ => _ end] => destruct x eqn:?
         end.

Ltac inv_ifs :=
  unfold leave, usage, setup_magic_close, ERROR, PERROR, DEBUG, print; simpl;
  split_ifs; simpl; unfold count_margin in *;
  rewrite ?forallb_app, ?filter_app, ?length_app, ?app_nil_r; simpl;
  rewrite ?Z.eqb_refl, ?andb_true_r, ?Nat.add_0_r;
  repeat match goal with
         | H : _ /\ _ |- _ => destruct H
         end;
  subst; rewrite ?Z.eqb_refl, ?andb_true_r; try tauto;
  try (repeat split; intros; auto; try lia; try congruence; tauto).

(** ** Executions in general *)

Lemma exec_app w a b s :
  exec w (a ++ b) s =
  (fst (exec w b (fst (exec w a s))),
   snd (exec w a s) ++ snd (exec w b (fst (exec w a s)))).
Proof.
  revert s; induction a as [|t a IH]; intros s; simpl.
  - now destruct (exec w b s).
  - rewrite IH; simpl. now rewrite app_assoc.
Qed.

Lemma exec_invariant w (P : state -> list event -> Prop) :
  (forall t s tr, P s tr ->
     P (fst (do_tick w t s)) (tr ++ snd (do_tick w t s))) ->
  forall sched s tr, P s tr ->
    P (fst (exec w sched s)) (tr ++ snd (exec w sched s)).
Proof.
  intros Hstep sched; induction sched as [|t sched IH]; intros s tr HP; simpl.
  - now rewrite app_nil_r.
  - rewrite app_assoc. apply IH, Hstep, HP.
Qed.

Lemma dead_stays w sched s :
  alive s = false -> exec w sched s = (s, []).
Proof.
  intros Hd; induction sched as [|t sched IH]; simpl; [reflexivity|].
  assert (E : do_tick w t s = (s, [])).
  { destruct t; simpl.
    - unfold step. unfold alive in Hd. destruct (at_pc s); try discriminate; reflexivity.
    - unfold deliver. now rewrite Hd. }
  rewrite E; simpl. now rewrite IH.
Qed.

Lemma period_after_explicit argv cur :
  period_after argv cur =
  match explicit_interval argv with Some k => k | None => cur end.
Proof.
  revert cur; induction argv as [|o argv IH]; intros cur; simpl; [reflexivity|].
  destruct o; simpl; try apply IH.
  rewrite IH. now destruct (explicit_interval argv).
Qed.

Lemma period_step_spec s :
  period_step s =
  (set_pc PcReport (set_period (kick_interval (period s) (real_timeout s)) s), []).
Proof.
  unfold period_step, kick_interval.
  destruct (-1 =? period s); [destruct (real_timeout s <? 0)|];
    destruct s; reflexivity.
Qed.

(** ** The invariant of [main] is kept by every statement and signal *)

Section MainInvariant.

Variable w : world.
Variable K : Z.

Lemma main_inv_tick t s tr :
  main_inv w K s tr ->
  main_inv w K (fst (do_tick w t s)) (tr ++ snd (do_tick w t s)).
Proof.
  intros (Hs & Hq & Hpc). destruct t as [|sig].
  - destruct s as [f v sl hi ht to rt p bg lf c].
    destruct c as [rest| | | | | | | | | | | | ];
      unfold main_inv, do_tick, step in *; cbn [at_pc] in *.
    + destruct rest as [|o rest]; [|destruct o as [|[a|]|a|a| | | | |c]];
        simpl in *; inv_ifs.
    + unfold daemon_step; simpl in *. inv_ifs.
    + simpl in *. inv_ifs.
    + simpl in *. inv_ifs.
    + unfold wdt_set_timeout; simpl in *. inv_ifs.
    + unfold wdt_get_timeout, read_back in *; simpl in *. inv_ifs.
    + unfold margin_step, warned, read_back in *; simpl in *. inv_ifs.
    + rewrite period_step_spec. simpl in *. inv_ifs.
    + simpl in *. inv_ifs.
    + unfold wdt_kick; simpl in *. inv_ifs.
    + simpl in *. inv_ifs.
    + simpl in *. inv_ifs.
    + simpl in *. inv_ifs.
  - unfold do_tick, deliver, wdt_magic_close.
    destruct (alive s) eqn:Ha.
    + destruct (handler_of s sig); unfold main_inv; simpl; inv_ifs.
    + simpl. rewrite app_nil_r. unfold main_inv. unfold alive in Ha.
      destruct (at_pc s); try discriminate; auto.
Qed.

End MainInvariant.

Lemma main_inv_init w argv : main_inv w (period_after argv (-1)) (init argv) [].
Proof. unfold main_inv; simpl. repeat split; auto. Qed.

Lemma main_inv_exec w argv sched :
  main_inv w (period_after argv (-1))
    (fst (exec w sched (init argv))) (snd (exec w sched (init argv))).
Proof.
  apply (exec_invariant w (main_inv w (period_after argv (-1)))
           (main_inv_tick w _) sched (init argv) []).
  apply main_inv_init.
Qed.

(** What the invariant says inside the loop. *)
Lemma loop_facts w argv sched :
  in_loop (fst (exec w sched (init argv))) = true ->
  period (fst (exec w sched (init argv))) =
    kick_interval (period_after argv (-1)) (read_back w) /\
  fd (fst (exec w sched (init argv))) = w_open w /\
  w_open w <> -1 /\
  count_margin (snd (exec w sched (init argv))) =
    warned w (period_after argv (-1)).
Proof.
  intros Hl. destruct (main_inv_exec w argv sched) as (_ & _ & H).
  unfold in_loop in Hl.
  destruct (at_pc (fst (exec w sched (init argv)))); try discriminate; exact H.
Qed.

Lemma sleep_facts w argv sched n :
  In (EvSleep n) (snd (exec w sched (init argv))) ->
  n = CInt.to_unsigned (kick_interval (period_after argv (-1)) (read_back w)).
Proof.
  intros Hin. destruct (main_inv_exec w argv sched) as (H & _).
  rewrite forallb_forall in H. specialize (H _ Hin). simpl in H.
  now apply Z.eqb_eq.
Qed.

Lemma to_unsigned_small x : 0 <= x <= CInt.INT_MAX -> CInt.to_unsigned x = x.
Proof.
  unfold CInt.to_unsigned, CInt.INT_MAX. intros H. apply Z.mod_small. lia.
Qed.

Lemma quot2_div2 x : 0 <= x -> Z.quot x 2 = x / 2.
Proof. intros H. apply Z.quot_div_nonneg; lia. Qed.

(** ** The kick interval *)

(** C1: with no [-k] on the command line and a timeout [T >= 0] read back
    from the device, the kick interval is [T / 2] (floor division): this is
    the value of [period] in the loop, and every [sleep] of the execution
    waits that long. *)
Theorem kick_interval_is_half_timeout w argv sched :
  explicit_interval argv = None ->
  0 <= read_back w <= CInt.INT_MAX ->
  (in_loop (fst (exec w sched (init argv))) = true ->
   period (fst (exec w sched (init argv))) = read_back w / 2) /\
  (forall n, In (EvSleep n) (snd (exec w sched (init argv))) ->
             n = read_back w / 2).
Proof.
  intros Hk HT.
  assert (E : kick_interval (period_after argv (-1)) (read_back w) = read_back w / 2).
  { rewrite period_after_explicit, Hk. unfold kick_interval. simpl.
    destruct (read_back w <? 0) eqn:Hn; [apply Z.ltb_lt in Hn; lia|].
    apply quot2_div2; lia. }
  split.
  - intros Hl. destruct (loop_facts w argv sched Hl) as (Hp & _). now rewrite Hp.
  - intros n Hin. rewrite (sleep_facts w argv sched n Hin), E.
    apply to_unsigned_small. unfold CInt.INT_MAX in *.
    split; [apply Z.div_pos; lia|].
    assert (read_back w / 2 <= read_back w) by (apply Z.div_le_upper_bound; lia).
    lia.
Qed.

Lemma kick_interval_is_half_timeout_witness :
  period (fst (main_run world_20 [Opt_f])) = 10 /\
  period (fst (main_run world_21 [Opt_f; Opt_w "21"])) = 10.
Proof.
  split.
  - refine (proj1 (kick_interval_is_half_timeout world_20 [Opt_f]
                     (repeat Run 10) _ _) _).
    + reflexivity.
    + vm_compute; split; discriminate.
    + reflexivity.
  - refine (proj1 (kick_interval_is_half_timeout world_21 [Opt_f; Opt_w "21"]
                     (repeat Run 11) _ _) _).
    + reflexivity.
    + vm_compute; split; discriminate.
    + reflexivity.
Defined.

(** C3: with no [-k] on the command line and a timeout that cannot be read
    back ([wdt_get_timeout] returns a negative value), the kick interval is
    the fixed default of 10 seconds, half the default timeout of 20,
    whatever the command line says otherwise ([-w] included). *)
Theorem kick_interval_fallback w argv sched :
  explicit_interval argv = None ->
  read_back w < 0 ->
  WDT_KICK_DEFAULT = 10 /\
  Z.quot WDT_TIMEOUT_DEFAULT 2 = WDT_KICK_DEFAULT /\
  (in_loop (fst (exec w sched (init argv))) = true ->
   period (fst (exec w sched (init argv))) = WDT_KICK_DEFAULT) /\
  (forall n, In (EvSleep n) (snd (exec w sched (init argv))) ->
             n = WDT_KICK_DEFAULT).
Proof.
  intros Hk HT.
  assert (E : kick_interval (period_after argv (-1)) (read_back w) = WDT_KICK_DEFAULT).
  { rewrite period_after_explicit, Hk. unfold kick_interval. simpl.
    destruct (read_back w <? 0) eqn:Hn; [reflexivity|apply Z.ltb_ge in Hn; lia]. }
  repeat split.
  - intros Hl. destruct (loop_facts w argv sched Hl) as (Hp & _). now rewrite Hp.
  - intros n Hin. rewrite (sleep_facts w argv sched n Hin), E. reflexivity.
Qed.

Lemma kick_interval_fallback_witness :
  period (fst (main_run world_unknown [Opt_f; Opt_w "300"])) = 10.
Proof.
  refine (proj1 (proj2 (proj2
            (kick_interval_fallback world_unknown [Opt_f; Opt_w "300"]
               (repeat Run 11) _ _))) _).
  - reflexivity.
  - reflexivity.
  - reflexivity.
Defined.

Lemma kick_interval_explicit K T : K <> -1 -> kick_interval K T = K.
Proof.
  intros H. unfold kick_interval.
  destruct (-1 =? K) eqn:E; [apply Z.eqb_eq in E; lia|reflexivity].
Qed.

(** C2, as stated, fails for the explicit interval -1: the operator's
    [-k -1] is replaced by half the negotiated timeout. *)
Lemma explicit_minus_one_is_overridden :
  explicit_interval [Opt_f; Opt_k "-1"] = Some (-1) /\
  in_loop (fst (main_run world_20 [Opt_f; Opt_k "-1"])) = true /\
  period (fst (main_run world_20 [Opt_f; Opt_k "-1"])) = 10 /\
  period (fst (main_run world_20 [Opt_f; Opt_k "-1"])) <> -1.
Proof. vm_compute. repeat split; discriminate. Qed.

(** C2, amended: for an explicit interval [K] and a timeout [T] read back
    with [0 <= T <= K], the margin warning is printed exactly once and [K] is
    the kick interval; an explicit interval other than -1 is never replaced,
    whatever the device answers. *)
Theorem explicit_interval_kept w argv sched K :
  explicit_interval argv = Some K ->
  in_loop (fst (exec w sched (init argv))) = true ->
  (K <> -1 -> period (fst (exec w sched (init argv))) = K) /\
  (0 <= read_back w <= K ->
   count_margin (snd (exec w sched (init argv))) = 1%nat /\
   period (fst (exec w sched (init argv))) = K).
Proof.
  intros Hk Hl.
  destruct (loop_facts w argv sched Hl) as (Hp & _ & _ & Hc).
  rewrite period_after_explicit, Hk in Hp, Hc.
  split.
  - intros HK. now rewrite Hp, kick_interval_explicit.
  - intros HT. split.
    + rewrite Hc. unfold warned.
      destruct (read_back w <? 0) eqn:E1; [apply Z.ltb_lt in E1; lia|].
      destruct (read_back w <=? K) eqn:E2; [reflexivity|apply Z.leb_gt in E2; lia].
    + rewrite Hp. apply kick_interval_explicit. lia.
Qed.

Lemma explicit_interval_kept_witness :
  count_margin (snd (main_run world_20 [Opt_f; Opt_k "25"])) = 1%nat /\
  period (fst (main_run world_20 [Opt_f; Opt_k "25"])) = 25.
Proof.
  refine (proj2 (explicit_interval_kept world_20 [Opt_f; Opt_k "25"]
                   (repeat Run 11) 25 _ _) _).
  - reflexivity.
  - reflexivity.
  - vm_compute; split; discriminate.
Defined.

(** ** The sentinel -1 *)

Lemma set_pc_init argv : init argv = set_pc (PcGetopt argv) (init []).
Proof. reflexivity. Qed.

(** A round of the option loop on anything but [-k] either leaves the loop
    for good or goes on with [period] untouched, and in both cases does not
    look at the options still to come. *)
Lemma getopt_round_other w o s :
  (forall a, o <> Opt_k a) ->
  (exists s1 evs, period s1 = period s /\
     forall rest, step w (set_pc (PcGetopt (o :: rest)) s) =
                  (set_pc (PcGetopt rest) s1, evs)) \/
  (exists s1 evs, alive s1 = false /\
     forall rest, step w (set_pc (PcGetopt (o :: rest)) s) = (s1, evs)).
Proof.
  intros Hk.
  destruct o as [|[a|]|a|a| | | | |c'].
  - left. exists (set_background 0 s), []. now destruct s.
  - left. exists (set_logfile (Some a) s), []. now destruct s.
  - right. exists (set_pc (PcExited 1) s),
      ((ERROR s MMissingLogfile ++ [EvPrintf PUsage]) ++ [EvExit 1]).
    now destruct s.
  - left. exists (set_timeout (CInt.atoi a) s), []. now destruct s.
  - now elim (Hk a).
  - left. exists (set_handlers Handler_wdt_magic_close s),
      [EvSigaction SIGINT; EvSigaction SIGTERM]. now destruct s.
  - right. exists (set_pc (PcExited 0) s), [EvPrintf PVersion; EvExit 0].
    now destruct s.
  - left. exists (set_verbose 1 s), []. now destruct s.
  - right. exists (set_pc (PcExited 0) s), [EvPrintf PUsage; EvExit 0].
    now destruct s.
  - right. exists (set_pc (PcExited 1) s),
      [EvPrintf (PUnrecognized c'); EvPrintf PUsage; EvExit 1].
    now destruct s.
Qed.

Lemma run_S w n s :
  run w (S n) s =
  (fst (run w n (fst (step w s))), snd (step w s) ++ snd (run w n (fst (step w s)))).
Proof. reflexivity. Qed.

Lemma getopt_round_minus_one w rest s :
  period s = -1 ->
  step w (set_pc (PcGetopt (Opt_k "-1" :: rest)) s) = (set_pc (PcGetopt rest) s, []).
Proof.
  intros Hp. destruct s as [f v sl hi ht to rt p bg lf c]; simpl in *. subst p.
  reflexivity.
Qed.

Lemma minus_one_skipped w post pre :
  forall s n,
    period s = -1 ->
    explicit_interval pre = None ->
    (List.length pre <= n)%nat ->
    run w (S n) (set_pc (PcGetopt (pre ++ Opt_k "-1" :: post)) s) =
    run w n (set_pc (PcGetopt (pre ++ post)) s).
Proof.
  induction pre as [|o pre IH]; intros s n Hp He Hn.
  - simpl app. rewrite run_S, getopt_round_minus_one by assumption.
    simpl. now destruct (run w n (set_pc (PcGetopt post) s)).
  - assert (Ho : forall a, o <> Opt_k a).
    { intros a ->. simpl in He. destruct (explicit_interval pre); discriminate. }
    assert (He' : explicit_interval pre = None).
    { destruct o; simpl in He; try assumption. now elim (Ho optarg). }
    destruct n as [|n]; [simpl in Hn; lia|].
    simpl in Hn. simpl app.
    rewrite (run_S w (S n)), (run_S w n (set_pc (PcGetopt (o :: pre ++ post)) s)).
    destruct (getopt_round_other w o s Ho) as [(s1 & evs & Hp1 & E)|(s1 & evs & Hd & E)];
      rewrite !E; cbn [fst snd].
    + rewrite IH; [reflexivity|congruence|assumption|lia].
    + unfold run. now rewrite !dead_stays.
Qed.

Lemma kick_interval_not_sentinel K T : kick_interval K T <> -1.
Proof.
  unfold kick_interval.
  destruct (-1 =? K) eqn:E.
  - destruct (T <? 0) eqn:E1; [discriminate|].
    apply Z.ltb_ge in E1. pose proof (Z.quot_pos T 2 E1). lia.
  - apply Z.eqb_neq in E. lia.
Qed.

(** C9: [-k -1] is the same as no [-k]: [atoi] turns the argument into the
    sentinel -1; a command line with [-k -1] inserted after options that set
    no interval runs exactly as the command line without it (same final
    state, same trace); whenever the last [-k] gives -1 the interval is
    derived from the timeout read back (or is the default); and [period] is
    never -1 inside the loop. *)
Theorem minus_one_is_no_interval w :
  CInt.atoi "-1" = -1 /\
  (forall pre post,
     explicit_interval pre = None ->
     main_run w (pre ++ Opt_k "-1" :: post) = main_run w (pre ++ post)) /\
  (forall argv sched,
     explicit_interval argv = Some (-1) ->
     in_loop (fst (exec w sched (init argv))) = true ->
     period (fst (exec w sched (init argv))) =
       if read_back w <? 0 then WDT_KICK_DEFAULT else Z.quot (read_back w) 2) /\
  (forall argv sched,
     in_loop (fst (exec w sched (init argv))) = true ->
     period (fst (exec w sched (init argv))) <> -1).
Proof.
  split; [reflexivity|]. split; [|split].
  - intros pre post He. unfold main_run.
    rewrite (set_pc_init (pre ++ Opt_k "-1" :: post)), (set_pc_init (pre ++ post)).
    rewrite !length_app. simpl List.length.
    replace (List.length pre + S (List.length post) + 9)%nat
      with (S (List.length pre + List.length post + 9)) by lia.
    apply minus_one_skipped; [reflexivity|assumption|lia].
  - intros argv sched He Hl.
    destruct (loop_facts w argv sched Hl) as (Hp & _).
    rewrite Hp, period_after_explicit, He. reflexivity.
  - intros argv sched Hl.
    destruct (loop_facts w argv sched Hl) as (Hp & _).
    rewrite Hp. apply kick_interval_not_sentinel.
Qed.

Lemma minus_one_is_no_interval_witness :
  main_run world_20 ([Opt_f; Opt_V] ++ Opt_k "-1" :: [Opt_s]) =
  main_run world_20 ([Opt_f; Opt_V] ++ [Opt_s]) /\
  period (fst (main_run world_20 [Opt_k "7"; Opt_f; Opt_k "-1"])) = 10.
Proof.
  split.
  - refine (proj1 (proj2 (minus_one_is_no_interval world_20)) [Opt_f; Opt_V] [Opt_s] _).
    reflexivity.
  - refine (proj1 (proj2 (proj2 (minus_one_is_no_interval world_20)))
              [Opt_k "7"; Opt_f; Opt_k "-1"] (repeat Run 12) _ _).
    + reflexivity.
    + reflexivity.
Defined.

(** ** Failure of the set-timeout request *)

Lemma run_negotiation w s :
  at_pc s = PcSetTimeout ->
  run w 5 s =
  (set_pc PcKick
     (set_period (kick_interval (period s) (read_back w))
        (set_real_timeout (read_back w) s)),
   wdt_set_timeout w s (timeout s) ++
   snd (wdt_get_timeout w s) ++
   snd (margin_step (set_real_timeout (read_back w) s)) ++
   DEBUG s (MInterval (kick_interval (period s) (read_back w)))).
Proof.
  intros Hpc. destruct s as [f v sl hi ht to rt p bg lf c]; simpl in Hpc; subst c.
  unfold run. cbn [repeat exec do_tick].
  change (step w {| fd := f; verbose := v; sys_log := sl; on_sigint := hi;
                    on_sigterm := ht; timeout := to; real_timeout := rt;
                    period := p; background := bg; logfile := lf;
                    at_pc := PcSetTimeout |})
    with (mkState f v sl hi ht to rt p bg lf PcGetTimeout,
          wdt_set_timeout w (mkState f v sl hi ht to rt p bg lf PcSetTimeout) to).
  cbn [fst snd].
  change (step w (mkState f v sl hi ht to rt p bg lf PcGetTimeout))
    with (mkState f v sl hi ht to (read_back w) p bg lf PcMargin,
          snd (wdt_get_timeout w (mkState f v sl hi ht to rt p bg lf PcSetTimeout))).
  cbn [fst snd].
  change (step w (mkState f v sl hi ht to (read_back w) p bg lf PcMargin))
    with (mkState f v sl hi ht to (read_back w) p bg lf PcPeriod,
          snd (margin_step (mkState f v sl hi ht to (read_back w) p bg lf PcSetTimeout))).
  cbn [fst snd].
  change (step w (mkState f v sl hi ht to (read_back w) p bg lf PcPeriod))
    with (period_step (mkState f v sl hi ht to (read_back w) p bg lf PcPeriod)).
  rewrite period_step_spec. cbn [fst snd].
  change (step w (set_pc PcReport ?x))
    with (set_pc PcKick x, DEBUG x (MInterval (period x))).
  cbn [fst snd app]. rewrite app_nil_r.
  reflexivity.
Qed.

(** C8: a failing set-timeout request is not fatal.  The statement of line
    211 prints the warning and goes on to read the timeout back; the four
    statements that follow reach the loop without any exit, with exactly one
    such warning, and with the interval computed from the value read back.
    Two executions that agree on the explicit interval and on the value read
    back use the same interval, whatever was requested with [-w] and
    whatever the set-timeout request answered. *)
Theorem set_timeout_failure_not_fatal w s :
  at_pc s = PcSetTimeout ->
  fst (w_settimeout w) <> 0 ->
  step w s =
    (set_pc PcGetTimeout s,
     DEBUG s (MSetting (timeout s)) ++
     [EvIoctl (fd s) (WDIOC_SETTIMEOUT (timeout s))] ++ PERROR s MSetFailed) /\
  in_loop (fst (run w 5 s)) = true /\
  period (fst (run w 5 s)) = kick_interval (period s) (read_back w) /\
  List.length (filter is_set_failed (snd (run w 5 s))) = 1%nat /\
  forallb (fun e => negb (is_exit e)) (snd (run w 5 s)) = true /\
  (forall w1 w2 argv1 argv2 sched1 sched2,
     explicit_interval argv1 = explicit_interval argv2 ->
     read_back w1 = read_back w2 ->
     in_loop (fst (exec w1 sched1 (init argv1))) = true ->
     in_loop (fst (exec w2 sched2 (init argv2))) = true ->
     period (fst (exec w1 sched1 (init argv1))) =
     period (fst (exec w2 sched2 (init argv2)))).
Proof.
  intros Hpc Hfail. apply Z.eqb_neq in Hfail.
  split; [|rewrite (run_negotiation w s Hpc);
            split; [|split; [|split; [|split]]]].
  - unfold step. rewrite Hpc. unfold wdt_set_timeout. now rewrite Hfail.
  - reflexivity.
  - reflexivity.
  - unfold wdt_set_timeout, wdt_get_timeout, margin_step, ERROR, PERROR, DEBUG, print.
    rewrite Hfail. cbn [snd].
    rewrite !filter_app, !length_app.
    destruct s as [f v sl hi ht to rt p bg lf c]; cbn.
    destruct (v =? 0), (sl =? 0), (read_back w <? 0), (read_back w <=? p); reflexivity.
  - unfold wdt_set_timeout, wdt_get_timeout, margin_step, ERROR, PERROR, DEBUG, print.
    rewrite Hfail. cbn [snd].
    rewrite !forallb_app.
    destruct s as [f v sl hi ht to rt p bg lf c]; cbn.
    destruct (v =? 0), (sl =? 0), (read_back w <? 0), (read_back w <=? p); reflexivity.
  - intros w1 w2 argv1 argv2 sched1 sched2 He Hr H1 H2.
    destruct (loop_facts w1 argv1 sched1 H1) as (-> & _).
    destruct (loop_facts w2 argv2 sched2 H2) as (-> & _).
    now rewrite !period_after_explicit, He, Hr.
Qed.

Lemma set_timeout_failure_not_fatal_witness :
  in_loop (fst (run world_set_fails 5 at_set_timeout)) = true /\
  period (fst (run world_set_fails 5 at_set_timeout)) = 30.
Proof.
  pose proof (set_timeout_failure_not_fatal world_set_fails at_set_timeout
                eq_refl) as H.
  assert (Hf : fst (w_settimeout world_set_fails) <> 0) by (vm_compute; discriminate).
  destruct (H Hf) as (_ & Hl & Hp & _).
  split; [exact Hl|exact Hp].
Defined.

(** ** Failure to open the device *)



(** ** The kick loop *)

Lemma run_add w a b s :
  run w (a + b) s =
  (fst (run w b (fst (run w a s))),
   snd (run w a s) ++ snd (run w b (fst (run w a s)))).
Proof. unfold run. rewrite repeat_app. apply exec_app. Qed.

Lemma loop_round w s :
  at_pc s = PcKick ->
  run w 2 s = (s, wdt_kick s ++ [EvSleep (CInt.to_unsigned (period s))]).
Proof.
  intros Hpc. destruct s as [f v sl hi ht to rt p bg lf c]; simpl in Hpc; subst c.
  reflexivity.
Qed.

Lemma loop_rounds w s n :
  at_pc s = PcKick -> run w (2 * n) s = (s, loop_trace s n).
Proof.
  intros Hpc. induction n as [|n IH].
  - reflexivity.
  - replace (2 * S n)%nat with (2 + 2 * n)%nat by lia.
    rewrite run_add, loop_round by assumption. cbn [fst snd].
    rewrite IH. cbn [fst snd loop_trace]. now rewrite <- app_assoc.
Qed.

Lemma loop_stays w m : forall s,
  in_loop s = true ->
  in_loop (fst (run w m s)) = true /\
  forallb (fun e => negb (is_exit e)) (snd (run w m s)) = true.
Proof.
  induction m as [|m IH]; intros s Hl.
  - now split.
  - rewrite run_S. cbn [fst snd]. rewrite forallb_app.
    assert (H : in_loop (fst (step w s)) = true /\
                forallb (fun e => negb (is_exit e)) (snd (step w s)) = true).
    { unfold in_loop in Hl. unfold step, in_loop.
      destruct s as [f v sl hi ht to rt p bg lf c]; simpl in *.
      destruct c; try discriminate; simpl; [|now split].
      unfold wdt_kick, DEBUG, print; simpl.
      destruct (v =? 0), (sl =? 0); now split. }
    destruct H as [H1 H2]. destruct (IH _ H1) as [H3 H4].
    split; [assumption|]. now rewrite H2, H4.
Qed.

Lemma kick_times_round now s n rest :
  kick_times now (wdt_kick s ++ [EvSleep n] ++ rest) =
  now :: kick_times (now + n) rest.
Proof.
  unfold wdt_kick, DEBUG, print.
  destruct (verbose s =? 0), (sys_log s =? 0); reflexivity.
Qed.

Lemma times_shift now I n :
  map (fun i => now + Z.of_nat i * I) (seq 0 (S n)) =
  now :: map (fun i => (now + I) + Z.of_nat i * I) (seq 0 n).
Proof.
  cbn [seq map]. f_equal; [lia|].
  rewrite <- seq_shift, map_map. apply map_ext. intros i. lia.
Qed.

Lemma kick_times_loop s n : forall now,
  kick_times now (loop_trace s n) =
  map (fun i => now + Z.of_nat i * CInt.to_unsigned (period s)) (seq 0 n).
Proof.
  induction n as [|n IH]; intros now.
  - reflexivity.
  - rewrite times_shift. cbn [loop_trace].
    rewrite kick_times_round. now rewrite IH.
Qed.

Lemma gaps_times I n : forall now,
  Forall (fun g => g = I)
    (gaps (map (fun i => now + Z.of_nat i * I) (seq 0 n))).
Proof.
  induction n as [|n IH]; intros now.
  - constructor.
  - rewrite times_shift. specialize (IH (now + I)).
    destruct n as [|n]; [constructor|].
    rewrite times_shift in IH |- *. cbn [gaps] in *.
    constructor; [lia|assumption].
Qed.

(** C7, as stated, fails for a negative explicit interval: with [-k -5]
    the interval is -5, [sleep] receives it as an unsigned number, and two
    consecutive kicks are 4294967291 seconds apart. *)
Lemma negative_interval_waits_longer :
  at_pc loop_minus_5 = PcKick /\
  period loop_minus_5 = -5 /\
  snd (run world_20 4 loop_minus_5) =
    [EvIoctl 3 WDIOC_KEEPALIVE; EvSleep 4294967291;
     EvIoctl 3 WDIOC_KEEPALIVE; EvSleep 4294967291] /\
  gaps (kick_times 0 (snd (run world_20 4 loop_minus_5))) = [4294967291] /\
  ~ Forall (fun g => g <= period loop_minus_5)
      (gaps (kick_times 0 (snd (run world_20 4 loop_minus_5)))).
Proof.
  repeat split; try reflexivity.
  intros H. vm_compute in H. inversion H as [|g l Hg Hl]; subst.
  apply Hg. reflexivity.
Qed.

(** C7, amended: from the first statement of the loop, whatever the
    interval, [2 * n] statements later the program is back at the same place
    in the same state, having done [n] times: kick, then [sleep] of the
    interval as an unsigned number, so that the first kick precedes any wait;
    on the virtual clock the kicks fall at the multiples of that wait; and
    however long the loop runs, it stays in the loop and nothing exits.  When
    the interval [I] is not negative, no two consecutive kicks are more than
    [I] apart; when it is moreover an [int], the wait is [I] itself and the
    kicks fall at 0, I, 2I, ... *)
Theorem kick_loop_runs_forever w s n :
  at_pc s = PcKick ->
  run w (2 * n) s = (s, loop_trace s n) /\
  loop_trace s (S n) =
    DEBUG s MKicking ++
    [EvIoctl (fd s) WDIOC_KEEPALIVE; EvSleep (CInt.to_unsigned (period s))] ++
    loop_trace s n /\
  kick_times 0 (loop_trace s n) =
    map (fun i => Z.of_nat i * CInt.to_unsigned (period s)) (seq 0 n) /\
  (forall m,
     in_loop (fst (run w m s)) = true /\
     forallb (fun e => negb (is_exit e)) (snd (run w m s)) = true) /\
  (0 <= period s ->
   Forall (fun g => g <= period s) (gaps (kick_times 0 (loop_trace s n)))) /\
  (0 <= period s <= CInt.INT_MAX ->
   CInt.to_unsigned (period s) = period s /\
   kick_times 0 (loop_trace s n) =
     map (fun i => Z.of_nat i * period s) (seq 0 n)).
Proof.
  intros Hpc.
  split; [|split; [|split; [|split; [|split]]]].
  - now apply loop_rounds.
  - cbn [loop_trace]. unfold wdt_kick. now rewrite <- app_assoc.
  - rewrite kick_times_loop. apply map_ext. intros i. lia.
  - intros m. apply loop_stays. unfold in_loop. now rewrite Hpc.
  - intros Hp. rewrite kick_times_loop.
    eapply Forall_impl; [|apply gaps_times]. cbn beta. intros g ->.
    unfold CInt.to_unsigned. apply Z.mod_le; lia.
  - intros Hp. pose proof (to_unsigned_small _ Hp) as Hu. split; [exact Hu|].
    rewrite kick_times_loop, Hu. apply map_ext. intros i. lia.
Qed.

Lemma kick_loop_runs_forever_witness :
  run world_20 6 loop_10 =
  (loop_10,
   [EvIoctl 3 WDIOC_KEEPALIVE; EvSleep 10; EvIoctl 3 WDIOC_KEEPALIVE; EvSleep 10;
    EvIoctl 3 WDIOC_KEEPALIVE; EvSleep 10]) /\
  kick_times 0 (loop_trace loop_10 4) = [0; 10; 20; 30] /\
  in_loop (fst (run world_20 5 loop_minus_5)) = true.
Proof.
  destruct (kick_loop_runs_forever world_20 loop_10 3 eq_refl) as (H1 & _).
  destruct (kick_loop_runs_forever world_20 loop_10 4 eq_refl) as (_ & _ & H3 & _).
  destruct (kick_loop_runs_forever world_20 loop_minus_5 0 eq_refl)
    as (_ & _ & _ & H4 & _).
  split; [exact H1|]. split; [exact H3|exact (proj1 (H4 5%nat))].
Defined.

(** ** Signals and the graceful stop *)

(** A signal caught by the handler ends the execution there. *)
Lemma signal_handled w s0 pre post sig :
  alive (fst (exec w pre s0)) = true ->
  armed (fst (exec w pre s0)) sig = true ->
  exec w (pre ++ Sig sig :: post) s0 =
  (fst (wdt_magic_close sig (fst (exec w pre s0))),
   snd (exec w pre s0) ++ snd (wdt_magic_close sig (fst (exec w pre s0)))).
Proof.
  intros Ha Hh. rewrite exec_app. cbn [exec do_tick].
  unfold deliver. rewrite Ha. unfold armed in Hh.
  destruct (handler_of (fst (exec w pre s0)) sig); [discriminate|].
  rewrite dead_stays by reflexivity. cbn [fst snd]. now rewrite app_nil_r.
Qed.


Lemma armed_signals s sig :
  armed s sig = true -> sig = SIGINT \/ sig = SIGTERM.
Proof. destruct sig; simpl; auto; discriminate. Qed.

Lemma step_no_disable w s : existsb is_disable (snd (step w s)) = false.
Proof.
  destruct s as [f v sl hi ht to rt p bg lf c]. unfold step; simpl.
  destruct c as [rest| | | | | | | | | | | | ]; simpl; try reflexivity.
  - destruct rest as [|o rest]; [reflexivity|].
    destruct o as [|[a|]|a|a| | | | |c]; simpl; try reflexivity.
    unfold ERROR, print; simpl. destruct (sl =? 0); reflexivity.
  - unfold daemon_step, leave, DEBUG, print; simpl.
    destruct (bg =? 0); [reflexivity|].
    destruct lf; simpl; destruct (w_daemonize w =? 0), (v =? 0), (sl =? 0);
      reflexivity.
  - unfold PERROR, print; simpl. destruct (f =? -1), (sl =? 0); reflexivity.
  - unfold wdt_set_timeout, PERROR, DEBUG, print; simpl.
    destruct (v =? 0), (sl =? 0), (fst (w_settimeout w) =? 0); reflexivity.
  - unfold DEBUG, print; simpl. destruct (v =? 0), (sl =? 0); reflexivity.
  - unfold ERROR, PERROR, print; simpl.
    destruct (rt <? 0), (rt <=? p), (sl =? 0); reflexivity.
  - unfold DEBUG, print; simpl. destruct (v =? 0), (sl =? 0); reflexivity.
  - unfold wdt_kick, DEBUG, print; simpl. destruct (v =? 0), (sl =? 0); reflexivity.
Qed.

Lemma magic_close_disables sig s :
  existsb is_disable (snd (wdt_magic_close sig s)) = negb (fd s =? -1).
Proof.
  unfold wdt_magic_close, DEBUG, print; simpl.
  destruct (fd s =? -1), (verbose s =? 0), (sys_log s =? 0); reflexivity.
Qed.

(** A graceful stop in the trace comes from a signal that found the
    process alive, the handler installed and the device open. *)
Lemma disable_only_by_signal w sched : forall s0,
  existsb is_disable (snd (exec w sched s0)) = true ->
  exists pre sig post,
    sched = pre ++ Sig sig :: post /\
    alive (fst (exec w pre s0)) = true /\
    armed (fst (exec w pre s0)) sig = true /\
    fd (fst (exec w pre s0)) <> -1.
Proof.
  induction sched as [|t sched IH]; intros s0 H; [discriminate|].
  cbn [exec snd] in H. rewrite existsb_app in H.
  apply orb_true_iff in H. destruct H as [H|H].
  - destruct t as [|sig]; cbn [do_tick] in H.
    + now rewrite step_no_disable in H.
    + exists [], sig, sched. cbn [app exec fst].
      unfold deliver in H. unfold armed.
      destruct (alive s0); [|discriminate].
      destruct (handler_of s0 sig); [discriminate|].
      rewrite magic_close_disables in H.
      repeat split. intros E. rewrite E in H. discriminate.
  - destruct (IH _ H) as (pre & sig & post & E & Ha & Hh & Hf).
    exists (t :: pre), sig, post. cbn [app exec fst]. subst sched.
    repeat split; assumption.
Qed.



Lemma alive_no_disable_yet w sched s0 :
  alive (fst (exec w sched s0)) = true ->
  existsb is_disable (snd (exec w sched s0)) = false.
Proof.
  intros Ha. destruct (existsb is_disable (snd (exec w sched s0))) eqn:E; [|reflexivity].
  destruct (disable_only_by_signal w sched s0 E) as (pre & sig & post & -> & Hal & Hh & _).
  rewrite (signal_handled w s0 pre post sig Hal Hh) in Ha. discriminate.
Qed.






(** C5, as stated, fails in verbose mode: the handler first prints a
    debug message. *)
Lemma verbose_stop_logs_first :
  alive loop_verbose = true /\
  snd (deliver SIGTERM loop_verbose) =
    [EvStderr MSafeExit; EvWrite 3 "V"; EvClose 3; EvExit 0] /\
  snd (deliver SIGTERM loop_verbose) <> [EvWrite 3 "V"; EvClose 3; EvExit 0].
Proof. repeat split. discriminate. Qed.

(** C5, amended: when the handler runs with the device open, the
    execution ends there with, in this order, the debug message (in verbose
    mode only), the write of the single byte "V" to the device, the close of
    the device, and exit status 0; nothing follows.  With [verbose] off the
    handler does exactly: write, close, exit 0. *)
Theorem graceful_stop_sequence w argv pre post sig :
  alive (fst (exec w pre (init argv))) = true ->
  armed (fst (exec w pre (init argv))) sig = true ->
  fd (fst (exec w pre (init argv))) <> -1 ->
  exec w (pre ++ Sig sig :: post) (init argv) =
    (set_pc (PcExited 0) (fst (exec w pre (init argv))),
     snd (exec w pre (init argv)) ++
     DEBUG (fst (exec w pre (init argv))) MSafeExit ++
     [EvWrite (fd (fst (exec w pre (init argv)))) "V";
      EvClose (fd (fst (exec w pre (init argv))));
      EvExit 0]) /\
  (verbose (fst (exec w pre (init argv))) = 0 ->
   snd (deliver sig (fst (exec w pre (init argv)))) =
     [EvWrite (fd (fst (exec w pre (init argv)))) "V";
      EvClose (fd (fst (exec w pre (init argv))));
      EvExit 0]).
Proof.
  intros Ha Hh Hf. apply Z.eqb_neq in Hf. split.
  - rewrite (signal_handled w (init argv) pre post sig Ha Hh).
    unfold wdt_magic_close. rewrite Hf. cbn [fst snd]. now rewrite <- app_assoc.
  - intros Hv. unfold deliver. rewrite Ha. unfold armed in Hh.
    destruct (handler_of (fst (exec w pre (init argv))) sig); [discriminate|].
    unfold wdt_magic_close, DEBUG. now rewrite Hf, Hv.
Qed.

Lemma graceful_stop_sequence_witness :
  snd (exec world_20 (repeat Run 12 ++ Sig SIGTERM :: [Run; Run])
         (init [Opt_f; Opt_s])) =
  [EvSigaction SIGINT; EvSigaction SIGTERM; EvOpen WDT_DEVNODE;
   EvIoctl 3 (WDIOC_SETTIMEOUT 20); EvIoctl 3 WDIOC_GETTIMEOUT;
   EvIoctl 3 WDIOC_KEEPALIVE;
   EvWrite 3 "V"; EvClose 3; EvExit 0].
Proof.
  refine (f_equal snd
            (proj1 (graceful_stop_sequence world_20 [Opt_f; Opt_s]
                      (repeat Run 12) [Run; Run] SIGTERM _ _ _))).
  - reflexivity.
  - reflexivity.
  - vm_compute. discriminate.
Defined.

(** C10: when the handler is installed and SIGINT or SIGTERM arrives
    while the handle is still -1, the execution ends there with exit status
    0 and nothing else: the whole trace has neither a write nor a close. *)
Theorem signal_before_open_only_exits w argv pre post sig :
  alive (fst (exec w pre (init argv))) = true ->
  armed (fst (exec w pre (init argv))) sig = true ->
  fd (fst (exec w pre (init argv))) = -1 ->
  (sig = SIGINT \/ sig = SIGTERM) /\
  deliver sig (fst (exec w pre (init argv))) =
    (set_pc (PcExited 0) (fst (exec w pre (init argv))), [EvExit 0]) /\
  exec w (pre ++ Sig sig :: post) (init argv) =
    (set_pc (PcExited 0) (fst (exec w pre (init argv))),
     snd (exec w pre (init argv)) ++ [EvExit 0]) /\
  existsb is_disable (snd (exec w (pre ++ Sig sig :: post) (init argv))) = false.
Proof.
  intros Ha Hh Hf.
  assert (E : wdt_magic_close sig (fst (exec w pre (init argv))) =
              (set_pc (PcExited 0) (fst (exec w pre (init argv))), [EvExit 0])).
  { unfold wdt_magic_close. now rewrite Hf. }
  split; [exact (armed_signals _ sig Hh)|]. split; [|split].
  - unfold deliver. rewrite Ha. unfold armed in Hh.
    destruct (handler_of (fst (exec w pre (init argv))) sig); [discriminate|exact E].
  - now rewrite (signal_handled w (init argv) pre post sig Ha Hh), E.
  - rewrite (signal_handled w (init argv) pre post sig Ha Hh), E. cbn [snd].
    rewrite existsb_app, (alive_no_disable_yet w pre (init argv) Ha). reflexivity.
Qed.

Lemma signal_before_open_only_exits_witness :
  exec world_20 ([Run; Run] ++ Sig SIGINT :: [Run]) (init [Opt_V; Opt_s]) =
  (mkState (-1) 1 0 Handler_wdt_magic_close Handler_wdt_magic_close
           20 0 (-1) 1 None (PcExited 0),
   [EvSigaction SIGINT; EvSigaction SIGTERM; EvExit 0]).
Proof.
  refine (proj1 (proj2 (proj2
            (signal_before_open_only_exits world_20 [Opt_V; Opt_s]
               [Run; Run] [Run] SIGINT _ _ _)))).
  - reflexivity.
  - reflexivity.
  - reflexivity.
Defined.

(** ** Reaching the loop *)

Lemma getopt_goes_on w o s :
  goes_on o = true ->
  exists s1 evs, forall rest,
    step w (set_pc (PcGetopt (o :: rest)) s) = (set_pc (PcGetopt rest) s1, evs).
Proof.
  intros Hg. destruct o as [|[a|]|a|a| | | | |c']; try discriminate.
  - exists (set_background 0 s), []. now destruct s.
  - exists (set_logfile (Some a) s), []. now destruct s.
  - exists (set_timeout (CInt.atoi a) s), []. now destruct s.
  - exists (set_period (CInt.atoi a) s), []. now destruct s.
  - exists (set_handlers Handler_wdt_magic_close s),
      [EvSigaction SIGINT; EvSigaction SIGTERM]. now destruct s.
  - exists (set_verbose 1 s), []. now destruct s.
Qed.

Lemma options_reach_daemon w argv : forall s,
  forallb goes_on argv = true ->
  exists s1, at_pc s1 = PcDaemon /\
    forall n, fst (run w (List.length argv + 1 + n) (set_pc (PcGetopt argv) s)) =
              fst (run w n s1).
Proof.
  induction argv as [|o argv IH]; intros s Hg.
  - exists (set_pc PcDaemon s). split; [reflexivity|]. intros n.
    cbn [List.length Nat.add]. rewrite run_S. now destruct s.
  - cbn [forallb] in Hg. apply andb_true_iff in Hg. destruct Hg as [Ho Hg].
    destruct (getopt_goes_on w o s Ho) as (s1 & evs & E).
    destruct (IH s1 Hg) as (s2 & Hpc & H).
    exists s2. split; [assumption|]. intros n.
    cbn [List.length Nat.add]. rewrite run_S, E. cbn [fst]. apply H.
Qed.

Lemma startup_reaches_set_timeout w s :
  at_pc s = PcDaemon ->
  w_daemonize w = 0 ->
  w_open w <> -1 ->
  at_pc (fst (run w 3 s)) = PcSetTimeout.
Proof.
  intros Hpc Hd Ho. apply Z.eqb_neq in Ho.
  assert (E1 : at_pc (fst (step w s)) = PcOpen).
  { unfold step. rewrite Hpc. unfold daemon_step. rewrite Hd.
    destruct (background s =? 0); [reflexivity|].
    destruct (logfile s); reflexivity. }
  rewrite !run_S. cbn [fst run repeat exec].
  set (s1 := fst (step w s)) in *.
  assert (E2 : fst (step w s1) = set_pc PcOpenCheck (set_fd (w_open w) s1)).
  { unfold step. now rewrite E1. }
  rewrite E2. unfold step. cbn [at_pc set_pc fd set_fd]. now rewrite Ho.
Qed.

Lemma fst_run_add w a b s :
  fst (run w (a + b) s) = fst (run w b (fst (run w a s))).
Proof. now rewrite run_add. Qed.

Lemma negotiation_reaches_loop w s :
  at_pc s = PcSetTimeout -> at_pc (fst (run w 5 s)) = PcKick.
Proof. intros Hpc. now rewrite run_negotiation. Qed.

(** With options that do not end the program, a [daemonize] that returns
    0 and a device that opens, [main] reaches its loop. *)
Lemma main_run_reaches_loop w argv :
  forallb goes_on argv = true ->
  w_daemonize w = 0 ->
  w_open w <> -1 ->
  at_pc (fst (main_run w argv)) = PcKick.
Proof.
  intros Hg Hd Ho. unfold main_run.
  destruct (options_reach_daemon w argv (init []) Hg) as (s1 & Hpc & H).
  replace (List.length argv + 9)%nat with (List.length argv + 1 + (3 + 5))%nat by lia.
  rewrite (set_pc_init argv), H, fst_run_add.
  now apply negotiation_reaches_loop, startup_reaches_set_timeout.
Qed.

(** ** The scenarios of the specification *)

(** Scenario A: timeout 20 read back, no [-k]: interval 10, kicks at 0,
    10, 20, 30. *)
Example scenario_A :
  period loop_10 = 10 /\
  kick_times 0 (snd (run world_20 8 loop_10)) = [0; 10; 20; 30].
Proof. split; reflexivity. Qed.

(** Scenario B: [-k 25], timeout 20 read back: one margin warning,
    interval 25. *)
Example scenario_B :
  main_run world_20 [Opt_f; Opt_k "25"] =
  (mkState 3 0 0 SIG_DFL SIG_DFL 20 20 25 0 None PcKick,
   [EvOpen WDT_DEVNODE; EvIoctl 3 (WDIOC_SETTIMEOUT 20);
    EvIoctl 3 WDIOC_GETTIMEOUT; EvStderr (MMargin 20 25)]).
Proof. reflexivity. Qed.

(** Scenario C: the timeout cannot be read back: interval 10, after the
    device was opened and the set-timeout request made. *)
Example scenario_C :
  main_run world_unknown [Opt_f] =
  (mkState 3 0 0 SIG_DFL SIG_DFL 20 (-1) 10 0 None PcKick,
   [EvOpen WDT_DEVNODE; EvIoctl 3 (WDIOC_SETTIMEOUT 20);
    EvIoctl 3 WDIOC_GETTIMEOUT; EvStderr MReadFailed]).
Proof. reflexivity. Qed.

(** Scenario D: [-s], SIGTERM during the first wait: magic byte, close,
    exit 0, and no second kick. *)
Example scenario_D :
  snd (exec world_20 (repeat Run 12 ++ Sig SIGTERM :: repeat Run 4)
         (init [Opt_f; Opt_s])) =
  [EvSigaction SIGINT; EvSigaction SIGTERM; EvOpen WDT_DEVNODE;
   EvIoctl 3 (WDIOC_SETTIMEOUT 20); EvIoctl 3 WDIOC_GETTIMEOUT;
   EvIoctl 3 WDIOC_KEEPALIVE; EvWrite 3 "V"; EvClose 3; EvExit 0].
Proof. reflexivity. Qed.

(** Scenario E: the device does not open: exit 1, nothing else. *)
Example scenario_E :
  snd (main_run world_no_device [Opt_f]) =
  [EvOpen WDT_DEVNODE; EvStderr MOpenFailed; EvExit 1].
Proof. reflexivity. Qed.

(** * Further properties of the program *)

(** ** The option loop *)

Lemma options_prefix w pre rest : forall s,
  forallb goes_on pre = true ->
  run w (List.length pre) (set_pc (PcGetopt (pre ++ rest)) s) =
  (set_pc (PcGetopt rest) (parsed pre s), sigactions pre).
Proof.
  induction pre as [|o pre IH]; intros s Hg.
  - now destruct s.
  - cbn [forallb] in Hg. apply andb_true_iff in Hg. destruct Hg as [Ho Hg].
    cbn [List.length app]. rewrite run_S.
    destruct o as [|[a|]|a|a| | | | |c']; try discriminate.
    + change (step w (set_pc (PcGetopt (Opt_f :: pre ++ rest)) s))
        with (set_pc (PcGetopt (pre ++ rest)) (set_background 0 s), @nil event).
      cbn [fst snd]. rewrite (IH _ Hg). now destruct s.
    + change (step w (set_pc (PcGetopt (Opt_l (Some a) :: pre ++ rest)) s))
        with (set_pc (PcGetopt (pre ++ rest)) (set_logfile (Some a) s), @nil event).
      cbn [fst snd]. rewrite (IH _ Hg). now destruct s.
    + change (step w (set_pc (PcGetopt (Opt_w a :: pre ++ rest)) s))
        with (set_pc (PcGetopt (pre ++ rest)) (set_timeout (CInt.atoi a) s), @nil event).
      cbn [fst snd]. rewrite (IH _ Hg). now destruct s.
    + change (step w (set_pc (PcGetopt (Opt_k a :: pre ++ rest)) s))
        with (set_pc (PcGetopt (pre ++ rest)) (set_period (CInt.atoi a) s), @nil event).
      cbn [fst snd]. rewrite (IH _ Hg). now destruct s.
    + change (step w (set_pc (PcGetopt (Opt_s :: pre ++ rest)) s))
        with (set_pc (PcGetopt (pre ++ rest)) (set_handlers Handler_wdt_magic_close s),
              [EvSigaction SIGINT; EvSigaction SIGTERM]).
      cbn [fst snd]. rewrite (IH _ Hg). now destruct s.
    + change (step w (set_pc (PcGetopt (Opt_V :: pre ++ rest)) s))
        with (set_pc (PcGetopt (pre ++ rest)) (set_verbose 1 s), @nil event).
      cbn [fst snd]. rewrite (IH _ Hg). now destruct s.
Qed.

Lemma options_done w argv s :
  forallb goes_on argv = true ->
  run w (List.length argv + 1) (set_pc (PcGetopt argv) s) =
  (set_pc PcDaemon (parsed argv s), sigactions argv).
Proof.
  intros Hg. rewrite run_add.
  pose proof (options_prefix w argv [] s Hg) as E. rewrite app_nil_r in E.
  rewrite E. cbn [fst snd]. rewrite run_S.
  change (step w (set_pc (PcGetopt []) (parsed argv s)))
    with (set_pc PcDaemon (set_pc (PcGetopt []) (parsed argv s)), @nil event).
  cbn [fst snd run repeat exec]. now rewrite !app_nil_r.
Qed.

Lemma background_after_f argv : forall cur,
  cur <> 0 -> (background_after argv cur = 0 <-> In Opt_f argv).
Proof.
  induction argv as [|o argv IH]; intros cur Hc; simpl.
  - tauto.
  - destruct o; try (rewrite (IH cur Hc); split; [tauto|intros [H|H]; [discriminate|assumption]]).
    split; [auto|]. intros _. clear. induction argv as [|o argv IH]; [reflexivity|].
    destruct o; simpl; assumption.
Qed.

Lemma verbose_after_V argv : forall cur,
  (verbose_after argv cur <> 0 <-> cur <> 0 \/ In Opt_V argv).
Proof.
  induction argv as [|o argv IH]; intros cur; simpl.
  - tauto.
  - destruct o; rewrite IH;
      try (split; [intros [H|H]; auto|intros [H|[H|H]]; auto; discriminate]).
    split; [auto|]. intros _. left. discriminate.
Qed.

Lemma handlers_after_s argv : forall cur,
  (handlers_after argv cur = Handler_wdt_magic_close <->
   cur = Handler_wdt_magic_close \/ In Opt_s argv).
Proof.
  induction argv as [|o argv IH]; intros cur; simpl.
  - tauto.
  - destruct o; rewrite IH;
      (split; [intros [H|H]; auto|intros [H|[H|H]]; auto; discriminate]).
Qed.

Lemma timeout_after_app pre post : forall cur,
  timeout_after (pre ++ post) cur = timeout_after post (timeout_after pre cur).
Proof.
  induction pre as [|o pre IH]; intros cur; [reflexivity|].
  destruct o; simpl; apply IH.
Qed.

Lemma logfile_after_app pre post : forall cur,
  logfile_after (pre ++ post) cur = logfile_after post (logfile_after pre cur).
Proof.
  induction pre as [|o pre IH]; intros cur; [reflexivity|].
  destruct o as [|[a|]| | | | | | |]; simpl; apply IH.
Qed.

(** X1: on a command line without [-h], [-v], an unknown option or an
    [-l] without argument, the option loop ends at line 190 with:
    [background] cleared exactly when [-f] occurs, [verbose] set exactly when
    [-V] occurs, the handlers installed (for both signals) exactly when [-s]
    occurs, [timeout], [period] and [logfile] those of the last [-w], [-k]
    and [-l] (defaults 20, -1, none); the device not opened; and nothing
    done but the [sigaction] calls.  A later [-w] or [-l] replaces an
    earlier one. *)
Theorem options_parsed w argv :
  forallb goes_on argv = true ->
  at_pc (fst (after_options w argv)) = PcDaemon /\
  (background (fst (after_options w argv)) = 0 <-> In Opt_f argv) /\
  (verbose (fst (after_options w argv)) <> 0 <-> In Opt_V argv) /\
  (forall sig, sig = SIGINT \/ sig = SIGTERM ->
     (armed (fst (after_options w argv)) sig = true <-> In Opt_s argv)) /\
  timeout (fst (after_options w argv)) = timeout_after argv WDT_TIMEOUT_DEFAULT /\
  period (fst (after_options w argv)) = period_after argv (-1) /\
  logfile (fst (after_options w argv)) = logfile_after argv None /\
  fd (fst (after_options w argv)) = -1 /\
  snd (after_options w argv) = sigactions argv /\
  (forall pre a post cur,
     timeout_after (pre ++ Opt_w a :: post) cur = timeout_after post (CInt.atoi a)) /\
  (forall pre a post cur,
     logfile_after (pre ++ Opt_l (Some a) :: post) cur = logfile_after post (Some a)).
Proof.
  intros Hg. unfold after_options.
  rewrite (set_pc_init argv), (options_done w argv (init []) Hg). cbn [fst snd].
  split; [reflexivity|]. split; [|split; [|split; [|repeat split]]].
  - apply (background_after_f argv 1). discriminate.
  - cbn. rewrite verbose_after_V. split; [intros [H|H]; [now elim H|assumption]|auto].
  - intros sig Hs. unfold armed, handler_of. cbn.
    assert (E : forall d, match d with
                          | SIG_DFL => false
                          | Handler_wdt_magic_close => true
                          end = true <-> d = Handler_wdt_magic_close).
    { intros [|]; split; intros; congruence. }
    destruct Hs as [-> | ->]; rewrite E, handlers_after_s;
      (split; [intros [H|H]; [discriminate|assumption]|auto]).
  - intros. now rewrite timeout_after_app.
  - intros. now rewrite logfile_after_app.
Qed.

Lemma options_parsed_witness :
  fst (after_options world_20 [Opt_w "5"; Opt_f; Opt_l (Some "log"); Opt_w "30"; Opt_s]) =
  mkState (-1) 0 0 Handler_wdt_magic_close Handler_wdt_magic_close
          30 0 (-1) 0 (Some "log") PcDaemon /\
  In Opt_f [Opt_w "5"; Opt_f; Opt_l (Some "log"); Opt_w "30"; Opt_s].
Proof.
  destruct (options_parsed world_20
              [Opt_w "5"; Opt_f; Opt_l (Some "log"); Opt_w "30"; Opt_s] eq_refl)
    as (_ & [H _] & _).
  split; [reflexivity|]. apply H. reflexivity.
Defined.

Lemma getopt_exit w o s rest :
  goes_on o = false ->
  sys_log s = 0 ->
  step w (set_pc (PcGetopt (o :: rest)) s) =
  (set_pc (PcExited (exit_status o)) s, exit_output o).
Proof.
  intros Hg Hs. destruct s as [f v sl hi ht to rt p bg lf c]; simpl in Hs; subst sl.
  destruct o as [|[a|]|a|a| | | | |c']; try discriminate; reflexivity.
Qed.

(** X2: the first [-h], [-v], unknown option or [-l] without argument
    ends the program at once: status 0 for [-h] and [-v], 1 otherwise, after
    the usage text (the version for [-v]).  The device is not opened, the
    process does not go to the background, and the options after it are not
    looked at. *)
Theorem first_terminating_option w pre o post :
  forallb goes_on pre = true ->
  goes_on o = false ->
  main_run w (pre ++ o :: post) =
    (set_pc (PcExited (exit_status o)) (parsed pre (init [])),
     sigactions pre ++ exit_output o) /\
  fd (fst (main_run w (pre ++ o :: post))) = -1 /\
  (exit_status o = 0 \/ exit_status o = 1).
Proof.
  intros Hg Ho.
  assert (E : main_run w (pre ++ o :: post) =
              (set_pc (PcExited (exit_status o)) (parsed pre (init [])),
               sigactions pre ++ exit_output o)).
  { unfold main_run. rewrite (set_pc_init (pre ++ o :: post)), length_app.
    rewrite <- Nat.add_assoc, run_add, (options_prefix w pre (o :: post) (init []) Hg).
    cbn [fst snd List.length Nat.add]. rewrite run_S.
    rewrite (getopt_exit w o (parsed pre (init [])) post Ho eq_refl).
    cbn [fst snd]. unfold run. rewrite dead_stays by reflexivity.
    cbn [fst snd]. now rewrite app_nil_r. }
  rewrite E. split; [reflexivity|]. split; [reflexivity|].
  destruct o as [|[a|]|a|a| | | | |c']; auto.
Qed.

Lemma first_terminating_option_witness :
  main_run world_20 ([Opt_s; Opt_V] ++ Opt_h :: [Opt_f; Opt_k "3"]) =
  (mkState (-1) 1 0 Handler_wdt_magic_close Handler_wdt_magic_close
           20 0 (-1) 1 None (PcExited 0),
   [EvSigaction SIGINT; EvSigaction SIGTERM; EvPrintf PUsage; EvExit 0]).
Proof.
  exact (proj1 (first_terminating_option world_20 [Opt_s; Opt_V] Opt_h
                  [Opt_f; Opt_k "3"] eq_refl eq_refl)).
Defined.

(** ** Going to the background *)

Lemma daemon_step_leaves w s :
  at_pc s = PcDaemon ->
  background s <> 0 ->
  w_daemonize w <> 0 ->
  step w s =
  (set_pc (PcExited (if w_daemonize w <? 0 then 1 else 0))
     (match logfile s with None => set_sys_log 1 s | Some _ => s end),
   [EvDaemonize (logfile s); EvExit (if w_daemonize w <? 0 then 1 else 0)]).
Proof.
  intros Hpc Hb Hd. apply Z.eqb_neq in Hb, Hd.
  unfold step. rewrite Hpc. unfold daemon_step. rewrite Hb.
  destruct s as [f v sl hi ht to rt p bg lf c]. cbn in *.
  destruct lf; cbn; rewrite Hd; reflexivity.
Qed.

(** X3: without [-f], when [daemonize] returns a non-zero value (the
    parent after the fork, or a failure), the program stops right there:
    exit status 0 for a positive value, 1 for a negative one; [daemonize] was
    given the last [-l] argument; the only things done are the [sigaction]
    calls, [daemonize] and the exit, and the device is never opened. *)
Theorem daemonize_parent_or_failure w argv :
  forallb goes_on argv = true ->
  ~ In Opt_f argv ->
  w_daemonize w <> 0 ->
  snd (main_run w argv) =
    sigactions argv ++
    [EvDaemonize (logfile_after argv None);
     EvExit (if w_daemonize w <? 0 then 1 else 0)] /\
  at_pc (fst (main_run w argv)) =
    PcExited (if w_daemonize w <? 0 then 1 else 0) /\
  fd (fst (main_run w argv)) = -1.
Proof.
  intros Hg Hf Hd.
  assert (Hb : background (set_pc PcDaemon (parsed argv (init []))) <> 0).
  { cbn. intros E. apply Hf. apply (background_after_f argv 1); [discriminate|exact E]. }
  assert (E : main_run w argv =
              (set_pc (PcExited (if w_daemonize w <? 0 then 1 else 0))
                 (match logfile_after argv None with
                  | None => set_sys_log 1 (set_pc PcDaemon (parsed argv (init [])))
                  | Some _ => set_pc PcDaemon (parsed argv (init []))
                  end),
               sigactions argv ++
               [EvDaemonize (logfile_after argv None);
                EvExit (if w_daemonize w <? 0 then 1 else 0)])).
  { unfold main_run.
    replace (List.length argv + 9)%nat with (List.length argv + 1 + 8)%nat by lia.
    rewrite (set_pc_init argv), run_add, (options_done w argv (init []) Hg).
    cbn [fst snd]. rewrite run_S.
    rewrite (daemon_step_leaves w (set_pc PcDaemon (parsed argv (init []))) eq_refl Hb Hd).
    cbn [fst snd]. unfold run. rewrite dead_stays by reflexivity.
    cbn [fst snd]. now rewrite app_nil_r. }
  rewrite E. cbn [fst snd]. split; [reflexivity|]. split; [reflexivity|].
  now destruct (logfile_after argv None).
Qed.

Lemma daemonize_parent_or_failure_witness :
  snd (main_run world_parent [Opt_l (Some "wd.log"); Opt_s]) =
    [EvSigaction SIGINT; EvSigaction SIGTERM;
     EvDaemonize (Some "wd.log"); EvExit 0] /\
  snd (main_run world_fork_fails []) = [EvDaemonize None; EvExit 1].
Proof.
  split.
  - refine (proj1 (daemonize_parent_or_failure world_parent
                     [Opt_l (Some "wd.log"); Opt_s] eq_refl _ _)).
    + intros [H|[H|[]]]; discriminate.
    + vm_compute; discriminate.
  - refine (proj1 (daemonize_parent_or_failure world_fork_fails [] eq_refl _ _)).
    + intros [].
    + vm_compute; discriminate.
Defined.

(** ** How executions end *)

(** Case analysis on a tick: the statement about to run, or the signal
    and the place it arrives at. *)
Ltac tick_cases t s :=
  destruct t as [|sig];
  destruct s as [f v sl hi ht to rt p bg lf c];
  destruct c as [rest| | | | | | | | | | | | ];
  [ destruct rest as [|o rest]; [|destruct o as [|[a|]|a|a| | | | |c']] | .. ];
  unfold do_tick, step, deliver, alive, handler_of; cbn [at_pc].

Ltac open_step :=
  try match goal with
      | |- context [daemon_step _ (mkState _ _ _ _ _ _ _ _ _ ?l _)] => destruct l
      end;
  unfold getopt_step, daemon_step, margin_step, wdt_set_timeout,
    wdt_get_timeout, wdt_kick, wdt_magic_close, setup_magic_close, usage,
    leave, ERROR, PERROR, DEBUG, print;
  cbn [fst snd at_pc set_pc set_fd set_verbose set_sys_log set_handlers
       set_timeout set_real_timeout set_period set_background set_logfile
       fd verbose sys_log on_sigint on_sigterm timeout real_timeout period
       background logfile].

Lemma no_exit_app a b : no_exit (a ++ b) = no_exit a && no_exit b.
Proof. apply forallb_app. Qed.

Ltac exit_finish H :=
  repeat match goal with
         | |- context [if ?b then _ else _] => destruct b
         | |- context [match ?x with None => _ | Some _ => _ end] => destruct x
         | |- context [match ?d with SIG_DFL => _ | Handler_wdt_magic_close => _ end] =>
             destruct d
         end;
  cbn [fst snd at_pc set_pc set_sys_log];
  rewrite ?app_nil_r;
  first
    [ exact H
    | rewrite no_exit_app, H; reflexivity
    | split; [auto|];
      match goal with
      | |- exists pre, ?tr ++ ?evs ++ [?e] = pre ++ [?e] /\ _ =>
          exists (tr ++ evs); split;
          [apply app_assoc|rewrite no_exit_app, H; reflexivity]
      | |- exists pre, ?tr ++ [?e] = pre ++ [?e] /\ _ =>
          exists tr; split; [reflexivity|exact H]
      end
    | match goal with
      | |- exists pre, ?tr ++ ?evs ++ [?e] = pre ++ [?e] /\ _ =>
          exists (tr ++ evs); split;
          [apply app_assoc|rewrite no_exit_app, H; reflexivity]
      | |- exists pre, ?tr ++ [?e] = pre ++ [?e] /\ _ =>
          exists tr; split; [reflexivity|exact H]
      end ].

Lemma exit_inv_tick w t s tr :
  exit_inv s tr ->
  exit_inv (fst (do_tick w t s)) (tr ++ snd (do_tick w t s)).
Proof.
  intros H. unfold exit_inv in *. tick_cases t s; cbn [at_pc] in H.
  all: try rewrite period_step_spec.
  all: open_step.
  all: exit_finish H.
Qed.

(** X7: an execution ends at most once.  While the process is alive its
    trace contains no exit; once it has exited, the status is 0 or 1 and the
    exit is the last event of the trace and the only one; once killed by a
    signal, the same holds of the kill.  Nothing is ever done after the
    end. *)
Theorem executions_end_once w argv sched :
  match at_pc (fst (exec w sched (init argv))) with
  | PcExited st =>
      (st = 0 \/ st = 1) /\
      exists pre, snd (exec w sched (init argv)) = pre ++ [EvExit st] /\
                  no_exit pre = true
  | PcKilled sg =>
      exists pre, snd (exec w sched (init argv)) = pre ++ [EvKilled sg] /\
                  no_exit pre = true
  | _ => no_exit (snd (exec w sched (init argv))) = true
  end.
Proof.
  exact (exec_invariant w exit_inv (exit_inv_tick w) sched (init argv) [] eq_refl).
Qed.

(** ** The loop never touches the configuration *)

Lemma frozen_tick w s0 t s tr :
  frozen s0 s tr ->
  frozen s0 (fst (do_tick w t s)) (tr ++ snd (do_tick w t s)).
Proof.
  intros [H1 H2]. unfold frozen in *.
  destruct t as [|sig]; destruct s as [f v sl hi ht to rt p bg lf c];
    unfold do_tick, step, deliver, alive, in_loop, handler_of in *; cbn [at_pc] in *;
    destruct c; try (specialize (H2 eq_refl); discriminate);
    cbn [fst set_pc]; try (split; [exact H1|auto; discriminate]).
  all: destruct sig; try destruct hi; try destruct ht;
    (split; [exact H1|discriminate]).
Qed.

(** X8: once in the loop, nothing the program or a signal does changes
    a variable: after any further execution the state differs from the one
    at loop entry by the program counter at most, and a process still alive
    is still in the loop.  The interval, the descriptor, the verbosity and
    the log sink are fixed for the rest of the run. *)
Theorem loop_keeps_configuration w s sched :
  in_loop s = true ->
  set_pc (at_pc s) (fst (exec w sched s)) = s /\
  (alive (fst (exec w sched s)) = true -> in_loop (fst (exec w sched s)) = true).
Proof.
  intros Hl.
  apply (exec_invariant w (frozen s) (frozen_tick w s) sched s []).
  split; [now destruct s|auto].
Qed.

Lemma loop_keeps_configuration_witness :
  period (fst (exec world_20 [Run; Sig SIGHUP; Run; Run] loop_10)) = 10 /\
  fd (fst (exec world_20 [Run; Run; Run] loop_10)) = 3.
Proof.
  split.
  - exact (f_equal period
             (proj1 (loop_keeps_configuration world_20 loop_10
                       [Run; Sig SIGHUP; Run; Run] eq_refl))).
  - exact (f_equal fd
             (proj1 (loop_keeps_configuration world_20 loop_10
                       [Run; Run; Run] eq_refl))).
Defined.

(** ** Verbosity *)

Lemma verbose_after_set rest : verbose_after rest 1 <> 0.
Proof. apply verbose_after_V. left. discriminate. Qed.

Ltac split_all_ifs :=
  repeat match goal with
         | |- context [if ?b then _ else _] => destruct b
         | |- context [match ?x with None => _ | Some _ => _ end] => destruct x
         | |- context [match ?d with SIG_DFL => _ | Handler_wdt_magic_close => _ end] =>
             destruct d
         end.

Lemma silent_inv_tick w t s tr :
  silent_inv s tr ->
  silent_inv (fst (do_tick w t s)) (tr ++ snd (do_tick w t s)).
Proof.
  intros (Hv & Hd & Hpc). unfold silent_inv in *.
  tick_cases t s; cbn [at_pc verbose] in *; subst v.
  all: try rewrite period_step_spec.
  all: open_step.
  all: try (exfalso; exact (verbose_after_set _ Hpc)).
  all: change (0 =? 0) with true; cbv iota.
  all: split_all_ifs; cbn [fst snd at_pc set_pc set_sys_log verbose app];
    rewrite ?app_nil_r, ?existsb_app, ?Hd; repeat split; auto.
Qed.

Lemma priority_fits_tick w t s tr :
  forallb priority_fits tr = true ->
  forallb priority_fits (tr ++ snd (do_tick w t s)) = true.
Proof.
  intros H. tick_cases t s.
  all: try rewrite period_step_spec.
  all: open_step.
  all: split_all_ifs; cbn [fst snd app]; rewrite ?app_nil_r, ?forallb_app, ?H;
    reflexivity.
Qed.

(** X9: nothing is printed through [DEBUG] unless [-V] was given: on a
    command line without [-V] no execution prints any of the debug messages,
    on either sink.  And in every execution a line sent to syslog carries
    priority [LOG_DEBUG] exactly when it is one of the debug messages, and
    [LOG_ERR] otherwise. *)
Theorem debug_only_when_verbose w argv sched :
  forallb priority_fits (snd (exec w sched (init argv))) = true /\
  (~ In Opt_V argv ->
   existsb is_debug (snd (exec w sched (init argv))) = false).
Proof.
  split.
  - apply (exec_invariant w (fun _ tr => forallb priority_fits tr = true)
             (fun t s tr => priority_fits_tick w t s tr) sched (init argv) []).
    reflexivity.
  - intros HV.
    apply (exec_invariant w silent_inv (silent_inv_tick w) sched (init argv) []).
    repeat split. cbn [at_pc init].
    destruct (Z.eq_dec (verbose_after argv 0) 0) as [E|E]; [exact E|].
    apply verbose_after_V in E. destruct E as [E|E]; [now elim E|contradiction].
Qed.

Lemma debug_only_when_verbose_witness :
  existsb is_debug
    (snd (exec world_20 (repeat Run 14 ++ [Sig SIGTERM]) (init [Opt_s; Opt_k "3"]))) = false.
Proof.
  refine (proj2 (debug_only_when_verbose world_20 [Opt_s; Opt_k "3"]
                   (repeat Run 14 ++ [Sig SIGTERM])) _).
  intros [H|[H|[]]]; discriminate.
Defined.

(** ** Going to the background and opening the device, in order *)

Lemma lifecycle_app a b : lifecycle (a ++ b) = lifecycle a ++ lifecycle b.
Proof. apply filter_app. Qed.

Lemma life_inv_tick w B L t s tr :
  life_inv B L s tr ->
  life_inv B L (fst (do_tick w t s)) (tr ++ snd (do_tick w t s)).
Proof.
  intros H. unfold life_inv, expected_lifecycle in *.
  tick_cases t s; cbn [at_pc background logfile background_after logfile_after] in H.
  all: try rewrite period_step_spec.
  all: open_step.
  all: repeat match goal with
              | H : _ /\ _ |- _ => destruct H
              end; subst.
  all: repeat match goal with
              | |- context [if ?b then _ else _] =>
                  let E := fresh "E" in destruct b eqn:E
              | |- context [match ?d with SIG_DFL => _ | Handler_wdt_magic_close => _ end] =>
                  destruct d
              end.
  all: cbn [fst snd at_pc set_pc set_sys_log background logfile app];
    rewrite ?app_nil_r, ?lifecycle_app;
    repeat match goal with
           | H : lifecycle _ = _ |- _ => rewrite H
           end;
    cbn [lifecycle filter is_lifecycle app].
  all: try (repeat split; reflexivity).
  all: try (eexists; reflexivity).
  all: try eassumption.
  all: try congruence.
Qed.

Lemma life_inv_exec w argv sched :
  life_inv (background_after argv 1) (logfile_after argv None)
    (fst (exec w sched (init argv))) (snd (exec w sched (init argv))).
Proof.
  apply (exec_invariant w _ (life_inv_tick w _ _) sched (init argv) []).
  repeat split.
Qed.

(** X5: the start-up happens once and in order.  In every execution the
    calls to [daemonize] and [open] are an initial part of: [open] alone when
    [-f] was given; [daemonize], given the last [-l] argument, then [open]
    otherwise.  So [daemonize] is never called with [-f], neither call is
    ever repeated, the device is never opened before the process is in the
    background, and only the fixed device node is opened.  In the loop both
    have been done. *)
Theorem startup_order w argv sched :
  (exists rest,
     lifecycle (snd (exec w sched (init argv))) ++ rest =
     expected_lifecycle (background_after argv 1) (logfile_after argv None)) /\
  (in_loop (fst (exec w sched (init argv))) = true ->
   lifecycle (snd (exec w sched (init argv))) =
   expected_lifecycle (background_after argv 1) (logfile_after argv None)) /\
  (background_after argv 1 = 0 <-> In Opt_f argv).
Proof.
  pose proof (life_inv_exec w argv sched) as H. unfold life_inv in H.
  split; [|split].
  - destruct (at_pc (fst (exec w sched (init argv)))); try exact H;
      try (exists []; rewrite app_nil_r; exact H).
    + destruct H as (_ & _ & ->). now eexists.
    + destruct H as (_ & _ & ->). now eexists.
    + rewrite H. unfold expected_lifecycle.
      destruct (background_after argv 1 =? 0); now eexists.
  - unfold in_loop. intros Hl.
    destruct (at_pc (fst (exec w sched (init argv)))); try discriminate; exact H.
  - apply background_after_f. discriminate.
Qed.

(** ** Where the messages go *)

Lemma sink_inv_tick w t s tr :
  sink_inv s tr ->
  sink_inv (fst (do_tick w t s)) (tr ++ snd (do_tick w t s)).
Proof.
  intros [(Hs & Hn & Hz)|(Hs & pre & post & -> & Hn & Hz & Hp)]; unfold sink_inv.
  - tick_cases t s; cbn [sys_log] in Hs; subst sl.
    all: try rewrite period_step_spec.
    all: open_step.
    all: change (0 =? 0) with true; change (1 =? 0) with false; cbv iota.
    all: split_all_ifs; cbn [fst snd at_pc set_pc set_sys_log sys_log app].
    all: rewrite ?app_nil_r.
    all: try (left; split; [reflexivity|];
              unfold no_syslog, no_daemonize_null in *;
              rewrite ?forallb_app, ?Hn, ?Hz; split; reflexivity).
    all: right; (split; [discriminate|]); eexists tr, _;
      (split; [reflexivity|split; [exact Hn|split; [exact Hz|reflexivity]]]).
  - apply Z.eqb_neq in Hs.
    tick_cases t s; cbn [sys_log] in Hs.
    all: try rewrite period_step_spec.
    all: open_step.
    all: try rewrite Hs.
    all: change (1 =? 0) with false; cbv iota.
    all: split_all_ifs; cbn [fst snd at_pc set_pc set_sys_log sys_log app].
    all: rewrite ?app_nil_r.
    all: right; (split; [try (apply Z.eqb_neq; exact Hs); discriminate|]).
    all: try (exists pre, post; split; [reflexivity|repeat split; assumption]).
    all: rewrite <- app_assoc; cbn [app]; eexists pre, _;
      (split; [reflexivity|split; [exact Hn|split; [exact Hz|]]]);
      unfold no_stderr in *; rewrite forallb_app, Hp; reflexivity.
Qed.

Lemma no_syslog_spec tr :
  no_syslog tr = true -> existsb is_syslog tr = false.
Proof.
  unfold no_syslog. induction tr as [|e tr IH]; [reflexivity|].
  cbn [forallb existsb]. intros H. apply andb_true_iff in H. destruct H as [H1 H2].
  rewrite (IH H2). now destruct (is_syslog e).
Qed.

Lemma sink_inv_exec w argv sched :
  sink_inv (fst (exec w sched (init argv))) (snd (exec w sched (init argv))).
Proof.
  apply (exec_invariant w sink_inv (sink_inv_tick w) sched (init argv) []).
  left. repeat split.
Qed.

(** X10: messages go to standard error until the process has gone to
    the background without a log file, and to syslog from then on.  Whenever
    [daemonize(NULL)] occurs in a trace, the trace splits at its first
    occurrence into a part without any syslog line and a part without any
    standard-error line; a trace without [daemonize(NULL)] has no syslog line
    at all.  A syslog line can therefore only occur on a command line without
    [-f] whose last [-l], if any, gave no file. *)
Theorem syslog_only_in_background w argv sched :
  (In (EvDaemonize None) (snd (exec w sched (init argv))) ->
   exists pre post,
     snd (exec w sched (init argv)) = pre ++ EvDaemonize None :: post /\
     no_syslog pre = true /\ no_daemonize_null pre = true /\
     no_stderr post = true) /\
  (~ In (EvDaemonize None) (snd (exec w sched (init argv))) ->
   no_syslog (snd (exec w sched (init argv))) = true) /\
  (existsb is_syslog (snd (exec w sched (init argv))) = true ->
   In (EvDaemonize None) (snd (exec w sched (init argv))) /\
   ~ In Opt_f argv /\ logfile_after argv None = None).
Proof.
  pose proof (sink_inv_exec w argv sched) as H.
  assert (H1 : In (EvDaemonize None) (snd (exec w sched (init argv))) ->
               exists pre post,
                 snd (exec w sched (init argv)) = pre ++ EvDaemonize None :: post /\
                 no_syslog pre = true /\ no_daemonize_null pre = true /\
                 no_stderr post = true).
  { intros Hin. destruct H as [(_ & _ & Hz)|(_ & H)]; [|exact H].
    unfold no_daemonize_null in Hz. rewrite forallb_forall in Hz.
    specialize (Hz _ Hin). discriminate. }
  assert (H2 : ~ In (EvDaemonize None) (snd (exec w sched (init argv))) ->
               no_syslog (snd (exec w sched (init argv))) = true).
  { intros Hn. destruct H as [(_ & H & _)|(_ & pre & post & E & _)]; [exact H|].
    exfalso. apply Hn. rewrite E. apply in_or_app. right. now left. }
  split; [exact H1|]. split; [exact H2|].
  intros Hs.
  assert (Hin : In (EvDaemonize None) (snd (exec w sched (init argv)))).
  { destruct H as [(_ & H & _)|(_ & pre & post & E & _)].
    - rewrite (no_syslog_spec _ H) in Hs. discriminate.
    - rewrite E. apply in_or_app. right. now left. }
  split; [exact Hin|].
  pose proof (life_inv_exec w argv sched) as HL.
  assert (Hin2 : In (EvDaemonize None)
                    (lifecycle (snd (exec w sched (init argv))))).
  { unfold lifecycle. apply filter_In. now split. }
  assert (Hex : exists rest,
             lifecycle (snd (exec w sched (init argv))) ++ rest =
             expected_lifecycle (background_after argv 1) (logfile_after argv None)).
  { unfold life_inv in HL.
    destruct (at_pc (fst (exec w sched (init argv)))); try exact HL;
      try (exists []; rewrite app_nil_r; exact HL).
    - destruct HL as (_ & _ & HL). rewrite HL in Hin2. destruct Hin2.
    - destruct HL as (_ & _ & HL). rewrite HL in Hin2. destruct Hin2.
    - rewrite HL. unfold expected_lifecycle.
      destruct (background_after argv 1 =? 0); now eexists. }
  destruct Hex as (rest & Hex).
  assert (Hin' : In (EvDaemonize None)
                    (expected_lifecycle (background_after argv 1)
                       (logfile_after argv None))).
  { rewrite <- Hex. apply in_or_app. now left. }
  unfold expected_lifecycle in Hin'.
  destruct (background_after argv 1 =? 0) eqn:EB.
  + destruct Hin' as [Hd|[]]. discriminate.
  + apply Z.eqb_neq in EB. split.
    * intros Hf. apply EB. apply (background_after_f argv 1); [discriminate|exact Hf].
    * destruct Hin' as [Hd|[Hd|[]]]; [congruence|discriminate].
Qed.

(** ** The requests made to the device *)

Lemma requests_app a b : requests (a ++ b) = requests a ++ requests b.
Proof.
  induction a as [|e a IH]; [reflexivity|].
  destruct e; cbn [app requests]; now rewrite ?IH.
Qed.

Lemma keepalives_ok d n :
  forallb (is_keepalive_on d) (repeat (d, WDIOC_KEEPALIVE) n) = true.
Proof.
  induction n as [|n IH]; [reflexivity|].
  cbn [repeat forallb is_keepalive_on]. now rewrite Z.eqb_refl, IH.
Qed.

(** What the invariant gives at any place. *)
Lemma proto_inv_protocol w W s tr :
  proto_inv w W s tr ->
  protocol (w_open w) W (requests tr) = true /\
  (requests tr <> [] -> w_open w <> -1).
Proof.
  intros (_ & _ & H).
  destruct (at_pc s); try exact H;
    repeat match goal with
           | H : _ /\ _ |- _ => destruct H
           | H : exists _, _ |- _ => destruct H
           end;
    match goal with
    | H : requests tr = _ |- _ => rewrite H
    end;
    cbn [protocol]; rewrite ?Z.eqb_refl, ?keepalives_ok;
    (split; [reflexivity|auto; try (intros E; now elim E)]).
Qed.

Lemma proto_inv_tick w W t s tr :
  proto_inv w W s tr ->
  proto_inv w W (fst (do_tick w t s)) (tr ++ snd (do_tick w t s)).
Proof.
  intros H.
  pose proof (proto_inv_protocol w W s tr H) as [HP HN].
  destruct H as (Hd & Hw & H). unfold proto_inv.
  tick_cases t s;
    cbn [at_pc fd timeout timeout_after] in H.
  all: try rewrite period_step_spec.
  all: open_step.
  all: repeat match goal with
              | H : _ /\ _ |- _ => destruct H
              | H : exists _, _ |- _ => destruct H
              end; subst.
  all: repeat match goal with
              | |- context [if ?b then _ else _] =>
                  let E := fresh "E" in destruct b eqn:E
              | |- context [match ?d with SIG_DFL => _ | Handler_wdt_magic_close => _ end] =>
                  destruct d
              end.
  all: cbn [fst snd at_pc set_pc set_fd set_sys_log fd timeout app];
    rewrite ?app_nil_r, ?requests_app, ?forallb_app, ?existsb_app, ?Hd;
    repeat match goal with
           | H : requests _ = _ |- _ => rewrite H
           end;
    cbn [requests app forallb existsb on_device is_disable andb orb].
  all: rewrite ?Z.eqb_refl, ?orb_false_r, ?orb_true_r.
  all: repeat match goal with
              | E : (?x =? -1) = false |- _ => apply Z.eqb_neq in E
              | E : (?x =? -1) = true |- _ => apply Z.eqb_eq in E
              end.
  all: try congruence.
  all: split; [reflexivity|]; (split; [intros; auto; fail|]).
  all: try (cbn [protocol]; rewrite ?Z.eqb_refl, ?keepalives_ok;
            repeat split; auto; intros; auto; congruence).
  all: try (repeat split; auto; try (now exists 0%nat); fail).
  all: rewrite ?app_nil_r, <- ?repeat_cons.
  all: try (cbn [protocol]; rewrite ?Z.eqb_refl, ?keepalives_ok;
            repeat split; auto; intros; auto; congruence).
  all: repeat split; auto;
    match goal with
    | |- exists n, _ :: _ :: _ :: repeat _ ?x = _ => now exists (S x)
    | |- exists n, _ :: _ :: repeat _ ?x = _ => now exists x
    end.
Qed.

(** X4: the device only ever sees the protocol.  In every execution the
    [ioctl] requests are, in order: at most one set-timeout, asking for the
    value of the last [-w] (20 without [-w]); then at most one get-timeout;
    then keep-alives only.  All of them, and any write or close, are on the
    descriptor [open] returned, which is then not -1: no request is ever made
    on a device that failed to open, and no keep-alive is sent before the
    timeout was set and read back.  In the loop, the set-timeout and the
    get-timeout have both been made. *)
Theorem device_protocol w argv sched :
  protocol (w_open w) (timeout_after argv WDT_TIMEOUT_DEFAULT)
    (requests (snd (exec w sched (init argv)))) = true /\
  (requests (snd (exec w sched (init argv))) <> [] -> w_open w <> -1) /\
  forallb (on_device (w_open w)) (snd (exec w sched (init argv))) = true /\
  (existsb is_disable (snd (exec w sched (init argv))) = true -> w_open w <> -1) /\
  (in_loop (fst (exec w sched (init argv))) = true ->
   exists n, requests (snd (exec w sched (init argv))) =
             (w_open w, WDIOC_SETTIMEOUT (timeout_after argv WDT_TIMEOUT_DEFAULT)) ::
             (w_open w, WDIOC_GETTIMEOUT) ::
             repeat (w_open w, WDIOC_KEEPALIVE) n).
Proof.
  assert (H : proto_inv w (timeout_after argv WDT_TIMEOUT_DEFAULT)
                (fst (exec w sched (init argv))) (snd (exec w sched (init argv)))).
  { apply (exec_invariant w _ (proto_inv_tick w _) sched (init argv) []).
    repeat split. discriminate. }
  destruct (proto_inv_protocol _ _ _ _ H) as [HP HN].
  destruct H as (Hd & Hw & H).
  repeat split; try assumption.
  unfold in_loop. intros Hl.
  destruct (at_pc (fst (exec w sched (init argv)))); try discriminate;
    now destruct H as (_ & _ & H).
Qed.

(** ** Diagnostics *)

Lemma diag_inv_tick w t s tr :
  diag_inv w s tr ->
  diag_inv w (fst (do_tick w t s)) (tr ++ snd (do_tick w t s)).
Proof.
  intros H. unfold diag_inv, count_set_failed, count_read_failed, read_back in *.
  tick_cases t s; cbn [at_pc real_timeout] in H.
  all: try rewrite period_step_spec.
  all: open_step.
  all: repeat match goal with
              | H : _ /\ _ |- _ => destruct H
              end; subst.
  all: repeat match goal with
              | |- context [if ?b then _ else _] =>
                  let E := fresh "E" in destruct b eqn:E
              | |- context [match ?d with SIG_DFL => _ | Handler_wdt_magic_close => _ end] =>
                  destruct d
              end.
  all: cbn [fst snd at_pc set_pc set_fd set_sys_log set_real_timeout real_timeout app];
    rewrite ?app_nil_r, ?filter_app, ?length_app;
    repeat match goal with
           | H : List.length _ = _ |- _ => rewrite H
           end;
    cbn [filter is_set_failed is_read_failed List.length app Nat.add].
  all: try exact I.
  all: try (repeat split; reflexivity).
Qed.

(** X6: the three diagnostics of the negotiation are exact.  When the
    loop is reached, the set-timeout failure was reported once if the request
    failed and not at all if it succeeded (in verbose mode or not); the read
    failure was reported once if the value read back is negative and not at
    all otherwise; and the margin warning was printed once if that value is
    known and not larger than the interval given with [-k], and not at all
    otherwise, in particular never without [-k]. *)
Theorem diagnostics_exact w argv sched :
  in_loop (fst (exec w sched (init argv))) = true ->
  count_set_failed (snd (exec w sched (init argv))) =
    (if fst (w_settimeout w) =? 0 then 0%nat else 1%nat) /\
  count_read_failed (snd (exec w sched (init argv))) =
    (if read_back w <? 0 then 1%nat else 0%nat) /\
  count_margin (snd (exec w sched (init argv))) =
    (if read_back w <? 0 then 0%nat
     else if read_back w <=? period_after argv (-1) then 1%nat else 0%nat) /\
  (explicit_interval argv = None ->
   count_margin (snd (exec w sched (init argv))) = 0%nat).
Proof.
  intros Hl.
  assert (H : diag_inv w (fst (exec w sched (init argv)))
                (snd (exec w sched (init argv)))).
  { apply (exec_invariant w _ (diag_inv_tick w) sched (init argv) []).
    now split. }
  destruct (loop_facts w argv sched Hl) as (_ & _ & _ & Hm).
  unfold diag_inv in H. unfold in_loop in Hl.
  assert (H' : count_set_failed (snd (exec w sched (init argv))) =
                 (if fst (w_settimeout w) =? 0 then 0%nat else 1%nat) /\
               count_read_failed (snd (exec w sched (init argv))) =
                 (if read_back w <? 0 then 1%nat else 0%nat)).
  { destruct (at_pc (fst (exec w sched (init argv)))); try discriminate; exact H. }
  destruct H' as [H1 H2].
  split; [exact H1|]. split; [exact H2|]. split; [exact Hm|].
  intros He. rewrite Hm, period_after_explicit, He. unfold warned.
  destruct (read_back w <? 0) eqn:E1; [reflexivity|].
  destruct (read_back w <=? -1) eqn:E2; [|reflexivity].
  apply Z.ltb_ge in E1. apply Z.leb_le in E2. lia.
Qed.

Lemma diagnostics_exact_witness :
  count_set_failed (snd (main_run world_set_fails [Opt_f; Opt_k "60"])) = 1%nat /\
  count_read_failed (snd (main_run world_set_fails [Opt_f; Opt_k "60"])) = 0%nat /\
  count_margin (snd (main_run world_set_fails [Opt_f; Opt_k "60"])) = 1%nat.
Proof.
  destruct (diagnostics_exact world_set_fails [Opt_f; Opt_k "60"]
              (repeat Run 11) eq_refl) as (H1 & H2 & H3 & _).
  split; [exact H1|split; [exact H2|exact H3]].
Defined.

(** ** The derived interval keeps the margin *)

(** X12: an interval the program derives itself is safe.  Without [-k]
    and with a timeout [T >= 0] read back, the interval used in the loop
    satisfies [0 <= 2 * period <= T]; for [T >= 1] it is strictly smaller
    than the timeout, and for [T = 0] it is 0 (the loop then kicks without
    waiting). *)
Theorem derived_interval_within_timeout w argv sched :
  explicit_interval argv = None ->
  0 <= read_back w ->
  in_loop (fst (exec w sched (init argv))) = true ->
  0 <= 2 * period (fst (exec w sched (init argv))) <= read_back w /\
  (1 <= read_back w -> period (fst (exec w sched (init argv))) < read_back w) /\
  (read_back w = 0 -> period (fst (exec w sched (init argv))) = 0).
Proof.
  intros He HT Hl.
  destruct (loop_facts w argv sched Hl) as (Hp & _).
  rewrite period_after_explicit, He in Hp. rewrite Hp.
  unfold kick_interval. cbn [Z.eqb Pos.eqb].
  destruct (read_back w <? 0) eqn:E; [apply Z.ltb_lt in E; lia|].
  rewrite quot2_div2 by assumption.
  pose proof (Z.div_mod (read_back w) 2 ltac:(lia)) as Hdm.
  pose proof (Z.mod_pos_bound (read_back w) 2 ltac:(lia)) as Hmod.
  repeat split; lia.
Qed.

Lemma derived_interval_within_timeout_witness :
  0 <= 2 * period (fst (main_run world_21 [Opt_f])) <= 21.
Proof.
  refine (proj1 (derived_interval_within_timeout world_21 [Opt_f]
                   (repeat Run 10) _ _ _)).
  - reflexivity.
  - vm_compute; discriminate.
  - reflexivity.
Defined.

(** ** Options of different kinds commute *)

Lemma getopt_round_any w o s :
  (exists s1 evs,
     forall rest, step w (set_pc (PcGetopt (o :: rest)) s) =
                  (set_pc (PcGetopt rest) s1, evs)) \/
  (exists s1 evs, alive s1 = false /\
     forall rest, step w (set_pc (PcGetopt (o :: rest)) s) = (s1, evs)).
Proof.
  destruct (goes_on o) eqn:Hg.
  - left. exact (getopt_goes_on w o s Hg).
  - right. destruct o as [|[a|]|a|a| | | | |c']; try discriminate.
    + exists (set_pc (PcExited 1) s),
        ((ERROR s MMissingLogfile ++ [EvPrintf PUsage]) ++ [EvExit 1]).
      now destruct s.
    + exists (set_pc (PcExited 0) s), [EvPrintf PVersion; EvExit 0]. now destruct s.
    + exists (set_pc (PcExited 0) s), [EvPrintf PUsage; EvExit 0]. now destruct s.
    + exists (set_pc (PcExited 1) s),
        [EvPrintf (PUnrecognized c'); EvPrintf PUsage; EvExit 1].
      now destruct s.
Qed.

Lemma prefix_congruence w X Y n pre : forall s,
  (forall s1, run w n (set_pc (PcGetopt X) s1) = run w n (set_pc (PcGetopt Y) s1)) ->
  run w (List.length pre + n) (set_pc (PcGetopt (pre ++ X)) s) =
  run w (List.length pre + n) (set_pc (PcGetopt (pre ++ Y)) s).
Proof.
  induction pre as [|o pre IH]; intros s H.
  - apply H.
  - cbn [List.length app Nat.add]. rewrite !run_S.
    destruct (getopt_round_any w o s) as [(s1 & evs & E)|(s1 & evs & Hd & E)];
      rewrite !E; cbn [fst snd].
    + now rewrite (IH s1 H).
    + reflexivity.
Qed.

Lemma two_rounds_commute w a b rest s :
  goes_on a = true -> goes_on b = true -> same_kind a b = false ->
  run w 2 (set_pc (PcGetopt (a :: b :: rest)) s) =
  run w 2 (set_pc (PcGetopt (b :: a :: rest)) s).
Proof.
  intros Ha Hb Hk. destruct s as [f v sl hi ht to rt p bg lf c].
  destruct a as [|[x|]|x|x| | | | |x]; try discriminate;
    destruct b as [|[y|]|y|y| | | | |y]; try discriminate; reflexivity.
Qed.

(** X11: the order of two neighbouring options of different kinds does
    not matter.  If neither of them ends the program, swapping them anywhere
    on the command line gives the same run of [main]: same final state, same
    trace. *)
Theorem options_commute w pre a b post :
  goes_on a = true -> goes_on b = true -> same_kind a b = false ->
  main_run w (pre ++ a :: b :: post) = main_run w (pre ++ b :: a :: post).
Proof.
  intros Ha Hb Hk. unfold main_run.
  rewrite (set_pc_init (pre ++ a :: b :: post)), (set_pc_init (pre ++ b :: a :: post)).
  rewrite !length_app. cbn [List.length].
  replace (List.length pre + S (S (List.length post)) + 9)%nat
    with (List.length pre + (2 + (List.length post + 9)))%nat by lia.
  apply prefix_congruence. intros s1.
  rewrite !run_add, (two_rounds_commute w a b post s1 Ha Hb Hk). reflexivity.
Qed.

Lemma options_commute_witness :
  main_run world_20 ([Opt_f] ++ Opt_s :: Opt_k "4" :: [Opt_V]) =
  main_run world_20 ([Opt_f] ++ Opt_k "4" :: Opt_s :: [Opt_V]).
Proof.
  exact (options_commute world_20 [Opt_f] Opt_s (Opt_k "4") [Opt_V]
           eq_refl eq_refl eq_refl).
Defined.

Lemma device_protocol_witness :
  requests (snd (exec world_20 (repeat Run 15 ++ [Sig SIGTERM])
                   (init [Opt_f; Opt_w "45"; Opt_s]))) =
  [(3, WDIOC_SETTIMEOUT 45); (3, WDIOC_GETTIMEOUT);
   (3, WDIOC_KEEPALIVE); (3, WDIOC_KEEPALIVE)] /\
  w_open world_20 <> -1.
Proof.
  destruct (device_protocol world_20 [Opt_f; Opt_w "45"; Opt_s]
              (repeat Run 15 ++ [Sig SIGTERM])) as (_ & _ & _ & H & _).
  split; [reflexivity|]. apply H. reflexivity.
Defined.

Lemma startup_order_witness :
  lifecycle (snd (main_run world_20 [Opt_l (Some "a"); Opt_l (Some "b")])) =
  [EvDaemonize (Some "b"); EvOpen WDT_DEVNODE].
Proof.
  exact (proj1 (proj2 (startup_order world_20 [Opt_l (Some "a"); Opt_l (Some "b")]
                         (repeat Run 11))) eq_refl).
Defined.

Lemma syslog_only_in_background_witness :
  exists pre post,
    snd (main_run world_20 [Opt_V; Opt_s]) = pre ++ EvDaemonize None :: post /\
    no_syslog pre = true /\ no_daemonize_null pre = true /\
    no_stderr post = true.
Proof.
  apply (proj1 (syslog_only_in_background world_20 [Opt_V; Opt_s] (repeat Run 11))).
  vm_compute. right; right; left. reflexivity.
Defined.
